(** * Matching core and funds ledger of the mini exchange

    A shallow embedding of the Go packages [orderbook], [database] and
    [handlers], and the properties of the design document checked on it.

    Conventions of the embedding.
    - [float64] prices, quantities and amounts, and the [DECIMAL(20,8)]
      columns of the ledger, are integers ([Z]).  On whole numbers (below
      2^53) the float64 operations of the code (comparison, [math.Min],
      addition, subtraction, multiplication) are exact, and so is the decimal
      arithmetic of the database.  Fractional values, on which either of
      them may round, and infinities and NaN are outside the model.
    - A [*models.Order] is a pointer ([ptr]) into a heap of order objects:
      the book's two slices and its id map hold pointers, so a quantity
      written through one of them is seen through the others.  The heap is
      total: every address holds an object (there is no nil pointer).
    - [uuid.UUID] is a number ([N]).
    - Mutexes are not modelled: every operation of a book runs under the
      book's lock, so an operation is one atomic state transformer.
    - [time.Now()] (the timestamp of a trade) is not modelled. *)

From Stdlib Require Import ZArith Lia Ascii String.
From stdpp Require Import sorting functions gmap strings fin_maps list.

Open Scope Z_scope.

(** ** models/models.go *)

Module Models.

Record Order := mkOrder {
  ID : N;
  UserID : N;
  Symbol : string;
  Type_ : string;        (* "limit", "market" *)
  Side : string;         (* "buy", "sell" *)
  Price : Z;
  Quantity : Z;
  Status : string
}.

Record Balance := mkBalance {
  Available : Z;
  Locked : Z
}.

(** [o.Quantity -= q] *)
Definition sub_Quantity (o : Order) (q : Z) : Order :=
  {| ID := ID o; UserID := UserID o; Symbol := Symbol o; Type_ := Type_ o;
     Side := Side o; Price := Price o; Quantity := Quantity o - q;
     Status := Status o |}.

Definition set_Status (o : Order) (s : string) : Order :=
  {| ID := ID o; UserID := UserID o; Symbol := Symbol o; Type_ := Type_ o;
     Side := Side o; Price := Price o; Quantity := Quantity o;
     Status := s |}.

End Models.

Import Models.

(** ** orderbook/orderbook.go *)

Module Orderbook.

(** A pointer to an order object is an address; the heap gives the object
    at every address. *)
Abbreviation ptr := nat (only parsing).
Abbreviation Heap := (nat -> Order) (only parsing).

Record Trade := mkTrade {
  TakerOrderID : N;
  MakerOrderID : N;
  TSymbol : string;
  TPrice : Z;
  TQuantity : Z
}.

Record OrderBook := mkOrderBook {
  symbol : string;
  Bids : list ptr;            (* sorted descending by price *)
  Asks : list ptr;            (* sorted ascending by price *)
  Orders : gmap N ptr         (* lookup by order id *)
}.

(** The book together with the order objects its pointers refer to. *)
Record State := mkState {
  heap : Heap;
  book : OrderBook
}.

Inductive BookError :=
| ErrSymbolMismatch        (* "order symbol %s does not match book symbol %s" *)
| ErrNotLimit              (* "only limit orders can be added directly to the book" *)
| ErrAlreadyExists         (* "order %s already exists in the book" *)
| ErrNotFound.             (* "order %s not found in book" *)

Inductive result (A : Type) :=
| Ok (a : A)
| Err (e : BookError).
Arguments Ok {A} a.
Arguments Err {A} e.

Definition is_Err {A} (r : result A) : Prop :=
  match r with Err _ => True | Ok _ => False end.

Definition NewOrderBook (sym : string) : OrderBook :=
  {| symbol := sym; Bids := []; Asks := []; Orders := ∅ |}.

(** One loop of [matchOrder] over the opposing side.  [crosses inc rest] is
    the price test ([incomingOrder.Price >= ask.Price] against the asks,
    [incomingOrder.Price <= bid.Price] against the bids).  The loop index [i]
    splits the side into [kept] (indices below [i]) and [rest] (from [i] on):
    removing the order at [i] drops the head of [rest] and leaves [i], [i++]
    moves the head of [rest] to the end of [kept].  Returns the final loop
    state and the side's slice. *)
Fixpoint matchLoop (crosses : Order -> Order -> bool) (sym : string)
    (incomingOrder : ptr) (h : Heap) (orders : gmap N ptr)
    (kept rest : list ptr) (trades : list Trade)
    : Heap * gmap N ptr * list ptr * list Trade :=
  match rest with
  | [] => (h, orders, kept, trades)
  | resting :: rest' =>
    if bool_decide (0 < Quantity (h incomingOrder)) then
      if crosses (h incomingOrder) (h resting) then
        let matchQuantity :=
          Z.min (Quantity (h incomingOrder)) (Quantity (h resting)) in
        let trade :=
          {| TakerOrderID := ID (h incomingOrder);
             MakerOrderID := ID (h resting);
             TSymbol := sym;
             TPrice := Price (h resting);
             TQuantity := matchQuantity |} in
        let h1 := <[incomingOrder := sub_Quantity (h incomingOrder) matchQuantity]> h in
        let h2 := <[resting := sub_Quantity (h1 resting) matchQuantity]> h1 in
        if bool_decide (Quantity (h2 resting) = 0) then
          matchLoop crosses sym incomingOrder h2
            (delete (ID (h2 resting)) orders) kept rest' (trades ++ [trade])
        else
          matchLoop crosses sym incomingOrder h2
            orders (kept ++ [resting]) rest' (trades ++ [trade])
      else (h, orders, kept ++ rest, trades)
    else (h, orders, kept ++ rest, trades)
  end.

Definition crossesAsk (incoming ask : Order) : bool :=
  bool_decide (Price ask <= Price incoming).   (* incoming.Price >= ask.Price *)
Definition crossesBid (incoming bid : Order) : bool :=
  bool_decide (Price incoming <= Price bid).   (* incoming.Price <= bid.Price *)

Definition matchOrder (incomingOrder : ptr) (st : State) : list Trade * State :=
  let ob := book st in
  if bool_decide (Side (heap st incomingOrder) = "buy") then
    let '(h, orders, asks, trades) :=
      matchLoop crossesAsk (symbol ob) incomingOrder (heap st) (Orders ob)
                [] (Asks ob) [] in
    (trades, {| heap := h;
                book := {| symbol := symbol ob; Bids := Bids ob;
                           Asks := asks; Orders := orders |} |})
  else
    let '(h, orders, bids, trades) :=
      matchLoop crossesBid (symbol ob) incomingOrder (heap st) (Orders ob)
                [] (Bids ob) [] in
    (trades, {| heap := h;
                book := {| symbol := symbol ob; Bids := bids;
                           Asks := Asks ob; Orders := orders |} |}).

(** [sort.Search(n, f)] of the Go library: binary search for the smallest
    index in [0, n) at which [f] holds, [n] when there is none.  The interval
    [i, j) shrinks at every round, so [n] rounds are always enough. *)
Fixpoint searchLoop (fuel : nat) (f : nat -> bool) (i j : nat) : nat :=
  match fuel with
  | O => i
  | S fuel' =>
    if (i <? j)%nat then
      let m := ((i + j) / 2)%nat in
      if negb (f m) then searchLoop fuel' f (m + 1)%nat j
      else searchLoop fuel' f i m
    else i
  end.

Definition sort_Search (n : nat) (f : nat -> bool) : nat :=
  searchLoop n f 0%nat n.

(** [s = append(s, nil); copy(s[i+1:], s[i:]); s[i] = x] *)
Definition insertAt (i : nat) (x : ptr) (s : list ptr) : list ptr :=
  take i s ++ x :: drop i s.

(** The price of the order at index [j] of a slice. *)
Definition priceAt (h : Heap) (s : list ptr) (j : nat) : option Z :=
  (fun p => Price (h p)) <$> s !! j.

Definition addBid (h : Heap) (order : ptr) (ob : OrderBook) : OrderBook :=
  let i := sort_Search (length (Bids ob))
             (fun j => match priceAt h (Bids ob) j with
                       | Some p => bool_decide (p <= Price (h order))
                       | None => false
                       end) in
  {| symbol := symbol ob; Bids := insertAt i order (Bids ob);
     Asks := Asks ob; Orders := Orders ob |}.

Definition addAsk (h : Heap) (order : ptr) (ob : OrderBook) : OrderBook :=
  let i := sort_Search (length (Asks ob))
             (fun j => match priceAt h (Asks ob) j with
                       | Some p => bool_decide (Price (h order) <= p)
                       | None => false
                       end) in
  {| symbol := symbol ob; Bids := Bids ob;
     Asks := insertAt i order (Asks ob); Orders := Orders ob |}.

Definition AddOrder (order : ptr) (st : State) : result (list Trade) * State :=
  let ob := book st in
  let o := heap st order in
  if bool_decide (Symbol o ≠ symbol ob) then (Err ErrSymbolMismatch, st)
  else if bool_decide (Type_ o ≠ "limit") then (Err ErrNotLimit, st)
  else if bool_decide (is_Some (Orders ob !! ID o)) then (Err ErrAlreadyExists, st)
  else
    (* ob.Orders[order.ID] = order *)
    let st1 := {| heap := heap st;
                  book := {| symbol := symbol ob; Bids := Bids ob;
                             Asks := Asks ob;
                             Orders := <[ID o := order]> (Orders ob) |} |} in
    let '(trades, st2) := matchOrder order st1 in
    if bool_decide (0 < Quantity (heap st2 order)) then
      if bool_decide (Side (heap st2 order) = "buy") then
        (Ok trades, {| heap := heap st2; book := addBid (heap st2) order (book st2) |})
      else
        (Ok trades, {| heap := heap st2; book := addAsk (heap st2) order (book st2) |})
    else (Ok trades, st2).

(** [for i, o := range s { if o.ID == orderID { s = append(s[:i], s[i+1:]...); break } }] *)
Fixpoint removeByID (h : Heap) (orderID : N) (s : list ptr) : list ptr :=
  match s with
  | [] => []
  | p :: s' => if bool_decide (ID (h p) = orderID) then s'
               else p :: removeByID h orderID s'
  end.

Definition CancelOrder (orderID : N) (st : State) : result ptr * State :=
  let ob := book st in
  match Orders ob !! orderID with
  | None => (Err ErrNotFound, st)
  | Some order =>
    let orders := delete orderID (Orders ob) in
    if bool_decide (Side (heap st order) = "buy") then
      (Ok order, {| heap := heap st;
                    book := {| symbol := symbol ob;
                               Bids := removeByID (heap st) orderID (Bids ob);
                               Asks := Asks ob; Orders := orders |} |})
    else
      (Ok order, {| heap := heap st;
                    book := {| symbol := symbol ob; Bids := Bids ob;
                               Asks := removeByID (heap st) orderID (Asks ob);
                               Orders := orders |} |})
  end.

Record BookLevel := mkLevel {
  LPrice : Z;
  LQuantity : Z
}.

Record OrderBookDepth := mkDepth {
  DSymbol : string;
  DBids : list BookLevel;
  DAsks : list BookLevel
}.

(** [levelMap[o.Price] += o.Quantity] for every order of a side; a missing
    key reads as zero. *)
Definition levelMap (h : Heap) (side : list ptr) : gmap Z Z :=
  foldl (fun m o =>
           <[Price (h o) := default 0 (m !! Price (h o)) + Quantity (h o)]> m)
        ∅ side.

(** The keys of the map (Go ranges over them in no fixed order). *)
Definition mapKeys (m : gmap Z Z) : list Z := (map_to_list m).*1.

(** [sort.Slice] with [less i j := prices[i] > prices[j]] and with
    [prices[i] < prices[j]]; the keys of a map are distinct, so every
    sorting algorithm returns the same slice. *)
Definition sortDescending (prices : list Z) : list Z := merge_sort (flip Z.le) prices.
Definition sortAscending (prices : list Z) : list Z := merge_sort Z.le prices.

Definition levelsOf (m : gmap Z Z) (prices : list Z) : list BookLevel :=
  (fun price => {| LPrice := price; LQuantity := default 0 (m !! price) |}) <$> prices.

Definition GetDepth (st : State) : OrderBookDepth :=
  let levelMapBids := levelMap (heap st) (Bids (book st)) in
  let bidsPrices := sortDescending (mapKeys levelMapBids) in
  let levelMapAsks := levelMap (heap st) (Asks (book st)) in
  let asksPrices := sortAscending (mapKeys levelMapAsks) in
  {| DSymbol := symbol (book st);
     DBids := levelsOf levelMapBids bidsPrices;
     DAsks := levelsOf levelMapAsks asksPrices |}.

(** *** Driving a book

    The callers of [AddOrder] (the HTTP handler through the manager) build a
    new order object for every request.  [submit] allocates the object at
    the next free address and hands the pointer to [AddOrder]. *)

Record Exchange := mkExchange {
  next : ptr;
  state : State
}.

Definition dummyOrder : Order :=
  {| ID := 0%N; UserID := 0%N; Symbol := ""; Type_ := ""; Side := "";
     Price := 0; Quantity := 0; Status := "" |}.

Definition newExchange (sym : string) : Exchange :=
  {| next := 0%nat;
     state := {| heap := fun _ => dummyOrder; book := NewOrderBook sym |} |}.

Definition submit (o : Order) (ex : Exchange) : result (list Trade) * Exchange :=
  let p := next ex in
  let st := {| heap := <[p := o]> (heap (state ex)); book := book (state ex) |} in
  let '(r, st') := AddOrder p st in
  (r, {| next := S p; state := st' |}).

Definition cancel (orderID : N) (ex : Exchange) : result ptr * Exchange :=
  let '(r, st') := CancelOrder orderID (state ex) in
  (r, {| next := next ex; state := st' |}).

Inductive Op :=
| OpAdd (o : Order)
| OpCancel (orderID : N).

Definition step (ex : Exchange) (op : Op) : Exchange :=
  match op with
  | OpAdd o => (submit o ex).2
  | OpCancel orderID => (cancel orderID ex).2
  end.

Definition run (sym : string) (ops : list Op) : Exchange :=
  foldl step (newExchange sym) ops.

(** The orders of a slice, as values. *)
Definition ordersOf (st : State) (s : list ptr) : list Order := heap st <$> s.

Definition limitOrder (id : N) (side : string) (price qty : Z) : Order :=
  {| ID := id; UserID := 0%N; Symbol := "BTC-USD"; Type_ := "limit";
     Side := side; Price := price; Quantity := qty; Status := "open" |}.

End Orderbook.

Import Orderbook.

(** ** database/balance_store.go, database/order_store.go *)

Module Database.

(** The tables [balances] (primary key [(user_id, asset)]) and [orders]
    (primary key [id]).  A transaction works on a copy of the tables: commit
    installs the copy, rollback drops it. *)
Record DB := mkDB {
  balances : gmap (N * string) Balance;
  orders : gmap N Order
}.

Inductive DBError :=
| ErrLockAmount            (* "lock amount must be positive" *)
| ErrInsufficientNotFound  (* "insufficient funds for user %s asset %s (balance not found)" *)
| ErrInsufficient (available required : Z)
                           (* "insufficient funds for user %s asset %s (available: %f, required: %f)" *)
| ErrUnlockAmount          (* "unlock amount must be positive" *)
| ErrUnlockFailed (requested : Z)
                           (* "failed to unlock sufficient locked funds for user %s asset %s (requested: %f)" *)
| ErrBuyFillLocked         (* "buy fill: failed to decrease sufficient locked %s" *)
| ErrSellFillLocked        (* "sell fill: failed to decrease sufficient locked %s" *)
| ErrInvalidSide           (* "invalid side for fill update: %s" *)
| ErrCreateOrder           (* "error creating order for user %s: %w" *)
| ErrOrderNotFound         (* "order not found or permission denied" *)
| ErrNotCancellable.       (* "order %s is not in a cancellable state (status: %s)" *)

(** [strings.Contains(err.Error(), "insufficient funds")] *)
Definition isInsufficientFunds (e : DBError) : bool :=
  match e with
  | ErrInsufficientNotFound | ErrInsufficient _ _ => true
  | _ => false
  end.

(** [UPDATE balances SET ... WHERE user_id = $2 AND asset = $3 AND cond]:
    the number of rows affected and the table after the statement. *)
Definition updateBalance (userID : N) (asset : string)
    (cond : Balance -> bool) (set : Balance -> Balance)
    (tx : DB) : nat * DB :=
  match balances tx !! (userID, asset) with
  | Some bal =>
    if cond bal
    then (1%nat, {| balances := <[(userID, asset) := set bal]> (balances tx);
                    orders := orders tx |})
    else (0%nat, tx)
  | None => (0%nat, tx)
  end.

Definition GetBalanceInTx (userID : N) (asset : string) (tx : DB) : option Balance :=
  balances tx !! (userID, asset).

Definition GetOrCreateBalanceInTx (userID : N) (asset : string) (tx : DB)
    : Balance * DB :=
  match GetBalanceInTx userID asset tx with
  | Some balance => (balance, tx)
  | None =>
    let newBalance := {| Available := 0; Locked := 0 |} in
    (newBalance, {| balances := <[(userID, asset) := newBalance]> (balances tx);
                    orders := orders tx |})
  end.

Definition LockFunds (userID : N) (asset : string) (amount : Z) (tx : DB)
    : option DBError * DB :=
  if bool_decide (amount <= 0) then (Some ErrLockAmount, tx)
  else
    let '(rowsAffected, tx') :=
      updateBalance userID asset
        (fun b => bool_decide (amount <= Available b))
        (fun b => {| Available := Available b - amount;
                     Locked := Locked b + amount |}) tx in
    if bool_decide (rowsAffected ≠ 1%nat) then
      match GetBalanceInTx userID asset tx' with
      | None => (Some ErrInsufficientNotFound, tx')
      | Some currBalance =>
        (Some (ErrInsufficient (Available currBalance) amount), tx')
      end
    else (None, tx').

Definition UnlockFunds (userID : N) (asset : string) (amount : Z) (tx : DB)
    : option DBError * DB :=
  if bool_decide (amount <= 0) then (Some ErrUnlockAmount, tx)
  else
    let '(rowsAffected, tx') :=
      updateBalance userID asset
        (fun b => bool_decide (amount <= Locked b))
        (fun b => {| Available := Available b + amount;
                     Locked := Locked b - amount |}) tx in
    if bool_decide (rowsAffected ≠ 1%nat) then (Some (ErrUnlockFailed amount), tx')
    else (None, tx').

(** [INSERT INTO balances ... VALUES ($1, $2, $3, 0)
     ON CONFLICT (user_id, asset) DO UPDATE SET available = balances.available + $3] *)
Definition upsertAvailable (userID : N) (asset : string) (amount : Z) (tx : DB) : DB :=
  let row :=
    match balances tx !! (userID, asset) with
    | Some b => {| Available := Available b + amount; Locked := Locked b |}
    | None => {| Available := amount; Locked := 0 |}
    end in
  {| balances := <[(userID, asset) := row]> (balances tx); orders := orders tx |}.

(** [UPDATE balances SET locked = locked - $1 WHERE ... AND locked >= $1] *)
Definition decreaseLocked (userID : N) (asset : string) (amount : Z) (tx : DB)
    : nat * DB :=
  updateBalance userID asset
    (fun b => bool_decide (amount <= Locked b))
    (fun b => {| Available := Available b; Locked := Locked b - amount |}) tx.

Definition UpdateBalancesForFill (userID : N) (baseAsset quoteAsset : string)
    (baseAmount quoteAmount : Z) (side : string) (tx : DB)
    : option DBError * DB :=
  if bool_decide (side = "buy") then
    let '(rows, tx1) := decreaseLocked userID quoteAsset quoteAmount tx in
    if bool_decide (rows ≠ 1%nat) then (Some ErrBuyFillLocked, tx1)
    else (None, upsertAvailable userID baseAsset baseAmount tx1)
  else if bool_decide (side = "sell") then
    let '(rows, tx1) := decreaseLocked userID baseAsset baseAmount tx in
    if bool_decide (rows ≠ 1%nat) then (Some ErrSellFillLocked, tx1)
    else (None, upsertAvailable userID quoteAsset quoteAmount tx1)
  else (Some ErrInvalidSide, tx).

(** [INSERT INTO orders ... RETURNING id]: the id is drawn by the database
    ([uuid_generate_v4()]), here [newID]; the insert fails on a primary-key
    conflict.  Returns the order with its id filled in. *)
Definition CreateOrder (newID : N) (order : Order) (tx : DB)
    : option DBError * Order * DB :=
  match orders tx !! newID with
  | Some _ => (Some ErrCreateOrder, order, tx)
  | None =>
    let order' :=
      {| ID := newID; UserID := UserID order; Symbol := Symbol order;
         Type_ := Type_ order; Side := Side order; Price := Price order;
         Quantity := Quantity order; Status := Status order |} in
    (None, order', {| balances := balances tx;
                      orders := <[newID := order']> (orders tx) |})
  end.

(** Marks an open order of the user as cancelled and returns the row as it
    was before. *)
Definition CancelOrder (userID orderID : N) (tx : DB)
    : (DBError + Order) * DB :=
  match orders tx !! orderID with
  | None => (inl ErrOrderNotFound, tx)
  | Some order =>
    if bool_decide (UserID order ≠ userID) then (inl ErrOrderNotFound, tx)
    else if bool_decide (Status order ≠ "open") then (inl ErrNotCancellable, tx)
    else (inr order,
          {| balances := balances tx;
             orders := <[orderID := set_Status order "cancelled"]> (orders tx) |})
  end.

(** [SELECT ... FROM orders WHERE id = $1]; no row gives [nil, nil]. *)
Definition GetOrderByID (orderID : N) (db : DB) : option Order :=
  orders db !! orderID.

(** [SELECT ... FROM orders WHERE user_id = $1 AND status != 'cancelled'
     ORDER BY created_at DESC]: the rows selected, by id.  The creation time
    of a row, and with it the order of the listing, is not modelled. *)
Definition GetUserOrders (userID : N) (db : DB) : gmap N Order :=
  filter (fun kv => UserID kv.2 = userID ∧ Status kv.2 ≠ "cancelled") (orders db).

End Database.

(** ** The functions of Go's [strings] package that the handlers use, on
    ASCII text *)

Module Strings.

Definition upperChar (c : ascii) : ascii :=
  let n := N_of_ascii c in
  if (97 <=? n)%N && (n <=? 122)%N then ascii_of_N (n - 32) else c.

Definition lowerChar (c : ascii) : ascii :=
  let n := N_of_ascii c in
  if (65 <=? n)%N && (n <=? 90)%N then ascii_of_N (n + 32) else c.

Fixpoint mapChars (f : ascii -> ascii) (s : string) : string :=
  match s with
  | EmptyString => EmptyString
  | String c s' => String (f c) (mapChars f s')
  end.

Definition ToUpper : string -> string := mapChars upperChar.
Definition ToLower : string -> string := mapChars lowerChar.

Definition isSpace (c : ascii) : bool :=
  let n := N_of_ascii c in
  ((9 <=? n)%N && (n <=? 13)%N) || (n =? 32)%N.

Fixpoint trimLeft (s : string) : string :=
  match s with
  | EmptyString => EmptyString
  | String c s' => if isSpace c then trimLeft s' else s
  end.

(** Drops the trailing white space: a character is kept when it is not a
    space or when something is kept after it. *)
Fixpoint trimRight (s : string) : string :=
  match s with
  | EmptyString => EmptyString
  | String c s' =>
    match trimRight s' with
    | EmptyString => if isSpace c then EmptyString else String c EmptyString
    | t => String c t
    end
  end.

Definition TrimSpace (s : string) : string := trimRight (trimLeft s).

(** [strings.Split(s, sep)] for a one-character separator. *)
Fixpoint Split (s : string) (sep : ascii) : list string :=
  match s with
  | EmptyString => [EmptyString]
  | String c s' =>
    if bool_decide (c = sep) then EmptyString :: Split s' sep
    else match Split s' sep with
         | part :: parts => String c part :: parts
         | [] => [String c EmptyString]
         end
  end.

End Strings.

(** ** orderbook/manager.go *)

Module Manager.

Import Database.

(** [m.books]: the books by symbol.  A book is held by pointer and changed
    in place; here the changed book is stored back under its key. *)
Definition GetOrCreateBook (sym : string) (books : gmap string OrderBook)
    : OrderBook * gmap string OrderBook :=
  let sym := Strings.ToUpper sym in
  match books !! sym with
  | Some bk => (bk, books)
  | None => let newBook := NewOrderBook sym in (newBook, <[sym := newBook]> books)
  end.

(** [processTrades]: the loop over the trades writes a log line for each of
    them and touches neither the orders nor the balances. *)
Definition processTrades (trades : list Trade) (db : DB) : DB :=
  foldl (fun db _trade => db) db trades.

(** [SubmitOrder] starts [processTrades] as a goroutine; it is run here at
    once (it has no effect either way). *)
Definition SubmitOrder (order : ptr) (h : Heap) (books : gmap string OrderBook)
    (db : DB) : option BookError * Heap * gmap string OrderBook * DB :=
  let '(bk, books1) := GetOrCreateBook (Symbol (h order)) books in
  let key := Strings.ToUpper (Symbol (h order)) in
  match AddOrder order {| heap := h; book := bk |} with
  | (Err e, st) => (Some e, heap st, <[key := book st]> books1, db)
  | (Ok trades, st) =>
    let db' := if bool_decide (0 < length trades)%nat
               then processTrades trades db else db in
    (None, heap st, <[key := book st]> books1, db')
  end.

Definition CancelOrder (order : Order) (h : Heap) (books : gmap string OrderBook)
    : option BookError * Heap * gmap string OrderBook :=
  let '(bk, books1) := GetOrCreateBook (Symbol order) books in
  let key := Strings.ToUpper (Symbol order) in
  match Orderbook.CancelOrder (ID order) {| heap := h; book := bk |} with
  | (Err e, st) => (Some e, heap st, <[key := book st]> books1)
  | (Ok _, st) => (None, heap st, <[key := book st]> books1)
  end.

(** [GetBookDepth]: [GetOrCreateBook] never returns nil, so the error return
    is dead code. *)
Definition GetBookDepth (sym : string) (h : Heap) (books : gmap string OrderBook)
    : OrderBookDepth * gmap string OrderBook :=
  let sym := Strings.ToUpper sym in
  let '(bk, books1) := GetOrCreateBook sym books in
  (GetDepth {| heap := h; book := bk |}, books1).

End Manager.

(** ** handlers/order_handler.go *)

Module Handlers.

Import Database.

Record CreateOrderRequest := mkRequest {
  rSymbol : string;
  rType : string;
  rSide : string;
  rPrice : Z;
  rQuantity : Z
}.

(** The server: the database, the order objects and the books of the
    manager. *)
Record System := mkSystem {
  db : DB;
  mem : Heap;
  nextPtr : ptr;
  books : gmap string OrderBook
}.

Inductive Response :=
| StatusBadRequest (error : string)
| StatusNotImplemented
| StatusInternalServerError (error : string)
| StatusNotFound
| StatusCreated (order : Order)
| StatusOK.

(** The funds an order reserves: the asset and the amount; [None] for a
    market buy. *)
Definition lockFor (baseAsset quoteAsset side type : string) (price quantity : Z)
    : option (string * Z) :=
  if bool_decide (side = "buy") then
    if bool_decide (type = "limit") then Some (quoteAsset, price * quantity)
    else None
  else Some (baseAsset, quantity).

(** [CreateOrder] for the authenticated user [userID]; [newID] is the id the
    database gives to the new row.  Every early return rolls the transaction
    back: the system is returned as it was. *)
Definition CreateOrder (userID newID : N) (req : CreateOrderRequest)
    (sys : System) : Response * System :=
  let symbol := Strings.ToUpper (Strings.TrimSpace (rSymbol req)) in
  let type := Strings.ToLower (Strings.TrimSpace (rType req)) in
  let side := Strings.ToLower (Strings.TrimSpace (rSide req)) in
  if bool_decide (symbol = "") || bool_decide (rQuantity req <= 0) then
    (StatusBadRequest "Symbol and positive quantity are required", sys)
  else
  match Strings.Split symbol "-"%char with
  | [baseAsset; quoteAsset] =>
    if bool_decide (baseAsset = "") || bool_decide (quoteAsset = "") then
      (StatusBadRequest "Invalid symbol format, expected BASE-QUOTE", sys)
    else if bool_decide (side ≠ "buy") && bool_decide (side ≠ "sell") then
      (StatusBadRequest "Invalid side, must be 'buy' or 'sell'", sys)
    else if bool_decide (type ≠ "limit") && bool_decide (type ≠ "market") then
      (StatusBadRequest "Invalid type, must be 'limit' or 'market'", sys)
    else if bool_decide (type = "limit") && bool_decide (rPrice req <= 0) then
      (StatusBadRequest "Positive price is required for limit orders", sys)
    else
      let order :=
        {| ID := 0%N; UserID := userID; Symbol := symbol; Type_ := type;
           Side := side;
           Price := if bool_decide (type = "limit") then rPrice req else 0;
           Quantity := rQuantity req; Status := "open" |} in
      let tx := db sys in
      match lockFor baseAsset quoteAsset side type (rPrice req) (rQuantity req) with
      | None => (StatusNotImplemented, sys)
      | Some (lockAsset, lockAmount) =>
        let '(_, tx1) := GetOrCreateBalanceInTx userID lockAsset tx in
        match LockFunds userID lockAsset lockAmount tx1 with
        | (Some err, _) =>
          (StatusBadRequest
             (if isInsufficientFunds err
              then "Insufficient balance to place order"
              else "Failed to lock funds"), sys)
        | (None, tx2) =>
          match Database.CreateOrder newID order tx2 with
          | (Some _, _, _) =>
            (StatusInternalServerError "Failed to save order after locking funds", sys)
          | (None, order', tx3) =>
            (* commit, then hand the order object to the matching engine *)
            let p := nextPtr sys in
            let h := <[p := order']> (mem sys) in
            let '(_, h', books', db') :=
              Manager.SubmitOrder p h (books sys) tx3 in
            (StatusCreated (h' p),
             {| db := db'; mem := h'; nextPtr := S p; books := books' |})
          end
        end
      end
  | _ => (StatusBadRequest "Invalid symbol format, expected BASE-QUOTE", sys)
  end.

(** The funds a cancelled order releases, from the order row. *)
Definition unlockFor (baseAsset quoteAsset : string) (originalOrder : Order)
    : option (string * Z) :=
  if bool_decide (Side originalOrder = "buy") then
    if bool_decide (Type_ originalOrder = "limit")
    then Some (quoteAsset, Price originalOrder * Quantity originalOrder)
    else None
  else Some (baseAsset, Quantity originalOrder).

Definition CancelOrder (userID orderID : N) (sys : System) : Response * System :=
  let tx := db sys in
  match Database.CancelOrder userID orderID tx with
  | (inl ErrOrderNotFound, _) => (StatusNotFound, sys)
  | (inl ErrNotCancellable, _) =>
    (StatusBadRequest "order is not in a cancellable state", sys)
  | (inl _, _) => (StatusInternalServerError "Failed to cancel order", sys)
  | (inr originalOrder, tx1) =>
    let parts := Strings.Split (Symbol originalOrder) "-"%char in
    match parts !! 0%nat, parts !! 1%nat with
    | Some baseAsset, Some quoteAsset =>
      match unlockFor baseAsset quoteAsset originalOrder with
      | None =>
        (StatusInternalServerError "Cannot cancel market buy order (logic pending)", sys)
      | Some (unlockAsset, unlockAmount) =>
        match UnlockFunds userID unlockAsset unlockAmount tx1 with
        | (Some _, _) =>
          (StatusInternalServerError
             "Order cancelled, but failed to unlock funds. Please contact support.", sys)
        | (None, tx2) =>
          (* commit, then tell the matching engine *)
          let '(_, h', books') :=
            Manager.CancelOrder originalOrder (mem sys) (books sys) in
          (StatusOK,
           {| db := tx2; mem := h'; nextPtr := nextPtr sys; books := books' |})
        end
      end
    | _, _ =>
      (* parts[1] out of range: the handler panics, nothing is committed *)
      (StatusInternalServerError "panic", sys)
    end
  end.

(** [GetOrders]: the orders of the authenticated user that are not
    cancelled. *)
Definition GetOrders (userID : N) (sys : System) : gmap N Order :=
  GetUserOrders userID (db sys).

Inductive OrderResponse :=
| OrderNotFound               (* 404 "Order not found" *)
| OrderForbidden              (* 403 "You do not have permission to view this order" *)
| OrderOK (order : Order).    (* 200 *)

(** [GetOrderByID] for the authenticated user [userID] and a well-formed
    id. *)
Definition GetOrderByID (userID orderID : N) (sys : System) : OrderResponse :=
  match Database.GetOrderByID orderID (db sys) with
  | None => OrderNotFound
  | Some order =>
    if bool_decide (UserID order ≠ userID) then OrderForbidden
    else OrderOK order
  end.

(** handlers/orderbook_handler.go *)

Inductive DepthResponse :=
| DepthBadRequest                    (* 400 "Symbol parameter is required" *)
| DepthOK (depth : OrderBookDepth).  (* 200 *)

(** [GetOrderBookDepth]: the manager creates the book of a symbol it has not
    seen. *)
Definition GetOrderBookDepth (symbol : string) (sys : System)
    : DepthResponse * System :=
  if bool_decide (symbol = "") then (DepthBadRequest, sys)
  else
    let symbol := Strings.ToUpper symbol in
    let '(depth, books') := Manager.GetBookDepth symbol (mem sys) (books sys) in
    (DepthOK depth,
     {| db := db sys; mem := mem sys; nextPtr := nextPtr sys; books := books' |}).

End Handlers.

(** ** Sequences of ledger calls *)

Module Ledger.

Import Database.

Inductive Call :=
| Lock (userID : N) (asset : string) (amount : Z)
| Unlock (userID : N) (asset : string) (amount : Z).

(** A call changes the tables whether it succeeds or fails (a failed call
    returns them as it found them). *)
Definition call (tx : DB) (c : Call) : DB :=
  match c with
  | Lock userID asset amount => (LockFunds userID asset amount tx).2
  | Unlock userID asset amount => (UnlockFunds userID asset amount tx).2
  end.


End Ledger.

(** ** The structural invariant of a book, as the design document states it *)

Module Spec.

(** Pointers are handed out in arrival order ([submit]), so the order that
    arrived earlier is the one with the smaller address. *)
Definition bidBefore (h : Heap) (p q : ptr) : bool :=
  bool_decide (Price (h q) < Price (h p))
  || (bool_decide (Price (h p) = Price (h q)) && bool_decide (p < q)%nat).

Definition askBefore (h : Heap) (p q : ptr) : bool :=
  bool_decide (Price (h p) < Price (h q))
  || (bool_decide (Price (h p) = Price (h q)) && bool_decide (p < q)%nat).

(** Every order of the slice is before all the orders behind it. *)
Fixpoint sortedBy (before : ptr -> ptr -> bool) (s : list ptr) : bool :=
  match s with
  | [] => true
  | p :: s' => forallb (before p) s' && sortedBy before s'
  end.

(** The number of resting orders, on both sides, that carry the id. *)
Definition occurrences (st : State) (id : N) : nat :=
  length (filter (fun q => ID (heap st q) = id)
                 (Bids (book st) ++ Asks (book st))).

(** Every id of the id map is the id of exactly one resting order. *)
Definition indexedOnce (st : State) : bool :=
  forallb (fun '(id, _) => bool_decide (occurrences st id = 1%nat))
          (map_to_list (Orders (book st))).

Definition bookInvariant (st : State) : bool :=
  sortedBy (bidBefore (heap st)) (Bids (book st))
  && sortedBy (askBefore (heap st)) (Asks (book st))
  && indexedOnce st.

End Spec.

(** The resting quantity of a side at a price: the sum of the quantities of
    the side's orders with that price. *)
Definition qtyAt (h : Heap) (side : list ptr) (price : Z) : Z :=
  foldr Z.add 0 ((fun p => Quantity (h p)) <$> filter (fun p => Price (h p) = price) side).

(** ** A server with two traders, and two orders that cross *)

Module Examples.

Import Database.

Definition twoTraders : Handlers.System :=
  {| Handlers.db :=
       {| balances := {[ (1%N, "BTC") := {| Available := 1; Locked := 0 |};
                         (2%N, "USD") := {| Available := 100; Locked := 0 |} ]};
          orders := ∅ |};
     Handlers.mem := fun _ => dummyOrder;
     Handlers.nextPtr := 0%nat;
     Handlers.books := ∅ |}.

Definition sellOne : Handlers.CreateOrderRequest :=
  {| Handlers.rSymbol := "BTC-USD"; Handlers.rType := "limit";
     Handlers.rSide := "sell"; Handlers.rPrice := 100; Handlers.rQuantity := 1 |}.

Definition buyOne : Handlers.CreateOrderRequest :=
  {| Handlers.rSymbol := "BTC-USD"; Handlers.rType := "limit";
     Handlers.rSide := "buy"; Handlers.rPrice := 100; Handlers.rQuantity := 1 |}.

(** User 1 offers one BTC at 100, then user 2 bids 100 for one BTC. *)
Definition afterBothOrders : Handlers.System :=
  (Handlers.CreateOrder 2 11 buyOne
     (Handlers.CreateOrder 1 10 sellOne twoTraders).2).2.

(** A ledger in which the buyer (user 2) has 100 USD locked and the seller
    (user 1) has no BTC locked. *)
Definition sellerShort : DB :=
  {| balances := {[ (1%N, "BTC") := {| Available := 0; Locked := 0 |};
                    (2%N, "USD") := {| Available := 0; Locked := 100 |} ]};
     orders := ∅ |}.

(** Two bids at the same price, the order with id 1 first. *)
Definition twoEqualBids : Exchange :=
  run "BTC-USD" [OpAdd (limitOrder 1 "buy" 100 10); OpAdd (limitOrder 2 "buy" 100 20)].

(** Two offers at the same price, the order with id 1 first. *)
Definition twoEqualAsks : Exchange :=
  run "BTC-USD" [OpAdd (limitOrder 1 "sell" 100 10); OpAdd (limitOrder 2 "sell" 100 20)].

End Examples.

(** ** Well-formed books

    What holds of every book that grows out of the empty one by [submit] and
    [cancel], and what the proofs about such books rest on. *)

Module Reach.

(** Two versions of an order object that differ at most in the remaining
    quantity (the only field the book writes). *)
Definition static (o o' : Order) : Prop :=
  ID o = ID o' ∧ UserID o = UserID o' ∧ Symbol o = Symbol o'
  ∧ Type_ o = Type_ o' ∧ Side o = Side o' ∧ Price o = Price o'
  ∧ Status o = Status o'.

(** The orders of the [OpAdd] operations, in the order of submission: the
    order at index [p] is the one whose object lives at address [p]. *)
Fixpoint added (ops : list Op) : list Order :=
  match ops with
  | [] => []
  | OpAdd o :: ops' => o :: added ops'
  | OpCancel _ :: ops' => added ops'
  end.

Record wf (n : nat) (st : State) : Prop := mkWf {
  wf_bids_lt : Forall (fun p => (p < n)%nat) (Bids (book st));
  wf_asks_lt : Forall (fun p => (p < n)%nat) (Asks (book st));
  wf_nodup : NoDup (Bids (book st) ++ Asks (book st));
  wf_indexed : ∀ p, p ∈ Bids (book st) ++ Asks (book st) →
                    Orders (book st) !! ID (heap st p) = Some p;
  wf_index_id : ∀ id p, Orders (book st) !! id = Some p →
                        ID (heap st p) = id ∧ (p < n)%nat;
  wf_bids_side : ∀ p, p ∈ Bids (book st) → Side (heap st p) = "buy";
  wf_asks_side : ∀ p, p ∈ Asks (book st) → Side (heap st p) ≠ "buy"
}.

(** The heap keeps the submitted orders up to their quantity: the order
    submitted as number [p] lives at address [p]. *)
Definition tracks (os : list Order) (ex : Exchange) : Prop :=
  next ex = length os
  ∧ ∀ p o, os !! p = Some o → static (heap (state ex) p) o.

(** The price order of the two sides: bids from the highest price down, asks
    from the lowest price up. *)
Definition bidsByPrice (h : Heap) (s : list ptr) : Prop :=
  StronglySorted (fun p q => Price (h q) <= Price (h p)) s.
Definition asksByPrice (h : Heap) (s : list ptr) : Prop :=
  StronglySorted (fun p q => Price (h p) <= Price (h q)) s.
Definition priceSorted (st : State) : Prop :=
  bidsByPrice (heap st) (Bids (book st)) ∧ asksByPrice (heap st) (Asks (book st)).

(** [p] stands in the slice before every other order of the slice that has
    the price [price]. *)
Definition beforeEqualPrice (h : Heap) (s : list ptr) (p : ptr) (price : Z) : Prop :=
  ∃ i, s !! i = Some p
       ∧ ∀ k q, s !! k = Some q → q ≠ p → Price (h q) = price → (i < k)%nat.

(** The total quantity of a list of trades. *)
Definition sumQty (ts : list Trade) : Z := foldr Z.add 0 (TQuantity <$> ts).

End Reach.

(** ** Ledger-wide quantities *)

Module Funds.

Import Database.

(** No balance is negative. *)
Definition nonNegative (tx : DB) : Prop :=
  ∀ k bal, balances tx !! k = Some bal → 0 <= Available bal ∧ 0 <= Locked bal.



End Funds.

(** ** The routes of the server ([main]) that change its state *)

Module Api.

Inductive Request :=
| PostOrder (userID newID : N) (req : Handlers.CreateOrderRequest)
                                       (* POST /api/orders *)
| DeleteOrder (userID orderID : N)     (* DELETE /api/orders/:id *)
| GetBook (symbol : string).           (* GET /api/book/:symbol *)

Definition handle (sys : Handlers.System) (r : Request) : Handlers.System :=
  match r with
  | PostOrder userID newID req => (Handlers.CreateOrder userID newID req sys).2
  | DeleteOrder userID orderID => (Handlers.CancelOrder userID orderID sys).2
  | GetBook symbol => (Handlers.GetOrderBookDepth symbol sys).2
  end.

Definition serve (sys : Handlers.System) (rs : list Request) : Handlers.System :=
  foldl handle sys rs.

End Api.

(** ** Funds reserved by open orders *)

Module Reserve.

Import Database.


(** What an order row keeps locked of an asset of a user: for an open order
    of the user the amount that cancelling it would release, when that is in
    the asset. *)
Definition reservedBy (userID : N) (asset : string) (o : Order) : Z :=
  if bool_decide (Status o = "open" ∧ UserID o = userID) then
    let parts := Strings.Split (Symbol o) "-"%char in
    match parts !! 0%nat, parts !! 1%nat with
    | Some baseAsset, Some quoteAsset =>
      match Handlers.unlockFor baseAsset quoteAsset o with
      | Some (a, amount) => if bool_decide (a = asset) then amount else 0
      | None => 0
      end
    | _, _ => 0
    end
  else 0.


End Reserve.

(** ** Resting quantities and the spread *)

Module Market.

(** Every resting order has quantity left. *)
Definition positive (st : State) : Prop :=
  ∀ p, p ∈ Bids (book st) ++ Asks (book st) → 0 < Quantity (heap st p).

(** No resting bid reaches the price of a resting ask. *)
Definition uncrossed (st : State) : Prop :=
  ∀ b a, b ∈ Bids (book st) → a ∈ Asks (book st) →
         Price (heap st b) < Price (heap st a).

(** The quantities of the orders of a slice, summed. *)
Definition sumOver (h : Heap) (s : list ptr) : Z :=
  foldr Z.add 0 ((fun p => Quantity (h p)) <$> s).

(** The quantity that rests in the book, on both sides. *)
Definition restingQty (st : State) : Z :=
  sumOver (heap st) (Bids (book st)) + sumOver (heap st) (Asks (book st)).


End Market.
(** ** The books of the server *)

Module Server.

Import Reach Market.

(** What holds of a book that the manager keeps under the key [k], when [n]
    order objects have been handed to the matching engine. *)
Record bookOK (n : nat) (h : Heap) (k : string) (bk : OrderBook) : Prop := mkBookOK {
  ok_symbol : symbol bk = k;
  ok_wf : wf n {| heap := h; book := bk |};
  ok_sorted : priceSorted {| heap := h; book := bk |};
  ok_positive : positive {| heap := h; book := bk |};
  ok_uncrossed : uncrossed {| heap := h; book := bk |};
  ok_resting : ∀ p, p ∈ Bids bk ++ Asks bk → Symbol (h p) = k
}.

Definition sound (sys : Handlers.System) : Prop :=
  ∀ k bk, Handlers.books sys !! k = Some bk →
          bookOK (Handlers.nextPtr sys) (Handlers.mem sys) k bk.




End Server.

(** * Properties *)

Import Database.
Import Reach.

(** ** The ledger *)








(** ** Errors of [AddOrder] *)

(** C7: [AddOrder] returns an error exactly when the order's symbol is not the
    book's, or its type is not "limit", or its id is already in the id map;
    and when it returns an error the heap and the book are as they were. *)
Theorem AddOrder_error_iff (order : ptr) (st : State) :
  (is_Err (AddOrder order st).1 ↔
     Symbol (heap st order) ≠ symbol (book st)
     ∨ Type_ (heap st order) ≠ "limit"
     ∨ is_Some (Orders (book st) !! ID (heap st order)))
  ∧ (is_Err (AddOrder order st).1 → (AddOrder order st).2 = st).
Proof.
  unfold AddOrder.
  repeat case_bool_decide; simpl; try tauto.
  destruct (matchOrder _ _) as [trades st2].
  repeat case_bool_decide; simpl; tauto.
Qed.

(** ** Depth *)

Section depth.
Context (h : Heap).

Let addLevel (m : gmap Z Z) (o : ptr) : gmap Z Z :=
  <[Price (h o) := default 0 (m !! Price (h o)) + Quantity (h o)]> m.

Lemma levelMap_fold_lookup (side : list ptr) (m : gmap Z Z) (price : Z) :
  foldl addLevel m side !! price =
    match filter (fun p => Price (h p) = price) side with
    | [] => m !! price
    | _ => Some (default 0 (m !! price) + qtyAt h side price)
    end.
Proof.
  revert m. induction side as [|p side IH]; intros m; [done|].
  simpl. rewrite IH. unfold qtyAt. rewrite filter_cons.
  destruct (decide (Price (h p) = price)) as [Heq|Hne].
  - unfold addLevel at 1 2. rewrite Heq, lookup_insert_eq. simpl.
    destruct (filter _ side); simpl; f_equal; lia.
  - unfold addLevel at 1 2. rewrite lookup_insert_ne by done.
    by destruct (filter _ side).
Qed.

Lemma levelMap_lookup (side : list ptr) (price : Z) :
  levelMap h side !! price =
    match filter (fun p => Price (h p) = price) side with
    | [] => None
    | _ => Some (qtyAt h side price)
    end.
Proof.
  unfold levelMap. fold addLevel. rewrite levelMap_fold_lookup.
  rewrite lookup_empty. simpl. destruct (filter _ side); [done|]. f_equal; lia.
Qed.

Lemma levelMap_is_Some (side : list ptr) (price : Z) :
  is_Some (levelMap h side !! price) ↔ ∃ p, p ∈ side ∧ Price (h p) = price.
Proof.
  rewrite levelMap_lookup.
  destruct (filter _ side) as [|q l] eqn:Hf.
  - split; [by intros [? ?]|]. intros (p & Hp & Hprice).
    assert (p ∈ filter (fun p => Price (h p) = price) side) as Hin
      by (apply list_elem_of_filter; done).
    rewrite Hf in Hin. by apply not_elem_of_nil in Hin.
  - split; [|eauto]. intros _.
    assert (q ∈ filter (fun p => Price (h p) = price) side) as Hin
      by (rewrite Hf; left).
    apply list_elem_of_filter in Hin as [Hprice Hside]. eauto.
Qed.

Lemma mapKeys_elem_of (m : gmap Z Z) (price : Z) :
  price ∈ mapKeys m ↔ is_Some (m !! price).
Proof.
  unfold mapKeys. rewrite list_elem_of_fmap. split.
  - intros ([k q] & -> & Hin). apply elem_of_map_to_list in Hin. eauto.
  - intros [q Hq]. exists (price, q). split; [done|].
    by apply elem_of_map_to_list.
Qed.

Lemma levelsOf_prices (m : gmap Z Z) (prices : list Z) :
  LPrice <$> levelsOf m prices = prices.
Proof.
  unfold levelsOf. induction prices as [|x l IH]; csimpl; [done|].
  by rewrite IH.
Qed.

(** Sorted without repetition is strictly sorted. *)
Lemma StronglySorted_strict (R : relation Z) (l : list Z) :
  StronglySorted R l → NoDup l →
  StronglySorted (fun x y => R x y ∧ x ≠ y) l.
Proof.
  induction 1 as [|x l Hl IH Hx]; intros Hnd; [constructor|].
  apply NoDup_cons in Hnd as [Hnotin Hnd].
  constructor; [by apply IH|].
  apply Forall_forall. intros y Hy. split.
  - by eapply Forall_forall in Hx.
  - intros ->. done.
Qed.

Lemma StronglySorted_weaken (R R' : relation Z) (l : list Z) :
  (∀ x y, R x y → R' x y) → StronglySorted R l → StronglySorted R' l.
Proof.
  intros HR. induction 1 as [|x l Hl IH Hx]; constructor; [done|].
  eapply Forall_impl; eauto.
Qed.

Lemma sortDescending_spec (prices : list Z) :
  NoDup prices →
  StronglySorted (fun x y => y < x) (sortDescending prices)
  ∧ sortDescending prices ≡ₚ prices.
Proof.
  intros Hnd. unfold sortDescending.
  assert (Total (flip Z.le)) as Htot by (intros x y; unfold flip; lia).
  pose proof (merge_sort_Permutation (flip Z.le) prices) as Hperm.
  split; [|done].
  eapply StronglySorted_weaken;
    [| apply StronglySorted_strict;
       [ apply (StronglySorted_merge_sort (flip Z.le)) | by rewrite Hperm ] ].
  unfold flip. simpl. lia.
Qed.

Lemma sortAscending_spec (prices : list Z) :
  NoDup prices →
  StronglySorted (fun x y => x < y) (sortAscending prices)
  ∧ sortAscending prices ≡ₚ prices.
Proof.
  intros Hnd. unfold sortAscending.
  pose proof (merge_sort_Permutation Z.le prices) as Hperm.
  split; [|done].
  eapply StronglySorted_weaken;
    [| apply StronglySorted_strict;
       [ apply (StronglySorted_merge_sort Z.le) | by rewrite Hperm ] ].
  simpl. lia.
Qed.
End depth.


(** The levels of one side: [sorted] is the sorted slice of the keys of the
    side's level map. *)
Lemma side_levels (h : Heap) (side : list ptr) (sorted : list Z) :
  sorted ≡ₚ mapKeys (levelMap h side) →
  let levels := levelsOf (levelMap h side) sorted in
  (∀ price, price ∈ LPrice <$> levels ↔ ∃ p, p ∈ side ∧ Price (h p) = price)
  ∧ (∀ l, l ∈ levels → LQuantity l = qtyAt h side (LPrice l)).
Proof.
  intros Hperm levels. subst levels. split.
  - intros price.
    rewrite levelsOf_prices, Hperm, mapKeys_elem_of.
    apply levelMap_is_Some.
  - intros l Hl. unfold levelsOf in Hl.
    apply list_elem_of_fmap in Hl as (price & -> & Hprice). simpl.
    rewrite Hperm in Hprice. apply mapKeys_elem_of in Hprice as [q Hq].
    rewrite Hq. simpl. rewrite levelMap_lookup in Hq.
    destruct (filter _ side); [done|]. congruence.
Qed.


(** ** The matching loop *)

Lemma static_refl o : static o o.
Proof. by repeat split. Qed.

Lemma static_trans o1 o2 o3 : static o1 o2 → static o2 o3 → static o1 o3.
Proof. unfold static. intros H1 H2. destruct_and!. split_and!; congruence. Qed.

Lemma static_sym o1 o2 : static o1 o2 → static o2 o1.
Proof. unfold static. intros H1. destruct_and!. split_and!; congruence. Qed.

Lemma static_sub_Quantity o q : static (sub_Quantity o q) o.
Proof. by repeat split. Qed.

(** One match writes the two quantities and nothing else. *)
Lemma match_step_static (h : Heap) (inc r : ptr) (m : Z) (q : ptr) :
  let h1 := <[inc := sub_Quantity (h inc) m]> h in
  let h2 := <[r := sub_Quantity (h1 r) m]> h1 in
  static (h2 q) (h q).
Proof.
  intros h1 h2.
  assert (static (h1 q) (h q)) as H1.
  { subst h1. destruct (decide (inc = q)) as [->|Hne].
    - rewrite fn_lookup_insert. apply static_sub_Quantity.
    - rewrite fn_lookup_insert_ne by done. apply static_refl. }
  subst h2. destruct (decide (r = q)) as [->|Hne].
  - rewrite fn_lookup_insert.
    eapply static_trans; [apply static_sub_Quantity|done].
  - by rewrite fn_lookup_insert_ne.
Qed.

Lemma match_step_other (h : Heap) (inc r : ptr) (m : Z) (q : ptr) :
  q ≠ inc → q ≠ r →
  (<[r := sub_Quantity (<[inc := sub_Quantity (h inc) m]> h r) m]>
     (<[inc := sub_Quantity (h inc) m]> h)) q = h q.
Proof. intros ??. by rewrite !fn_lookup_insert_ne. Qed.

(** What a matching loop does to the side, the id map and the heap:
    [removed] are the resting orders it has taken out, [stay] those it has
    left, in their order. *)
Lemma matchLoop_effect crosses sym inc rest :
  ∀ h orders kept trades h' orders' side' trades',
  matchLoop crosses sym inc h orders kept rest trades = (h', orders', side', trades') →
  ∃ removed stay,
    side' = kept ++ stay
    ∧ rest ≡ₚ removed ++ stay
    ∧ stay `sublist_of` rest
    ∧ (∀ id, orders' !! id =
             if bool_decide (id ∈ (fun r => ID (h r)) <$> removed) then None
             else orders !! id)
    ∧ (∀ q, static (h' q) (h q))
    ∧ (∀ q, q ≠ inc → q ∉ rest → h' q = h q).
Proof.
  induction rest as [|r rest IH]; intros h orders kept trades h' orders' side' trades' Hrun;
    simpl in Hrun.
  { simplify_eq. exists [], []. rewrite app_nil_r. split_and!; try done. }
  assert (∃ removed stay, kept ++ r :: rest = kept ++ stay
       ∧ r :: rest ≡ₚ removed ++ stay
       ∧ stay `sublist_of` r :: rest
       ∧ (∀ id, orders !! id =
            if bool_decide (id ∈ (fun r => ID (h r)) <$> removed) then None
            else orders !! id)
       ∧ (∀ q, static (h q) (h q))
       ∧ (∀ q, q ≠ inc → q ∉ r :: rest → h q = h q)) as Hstop.
  { exists [], (r :: rest). split_and!; try done. }
  case_bool_decide as Hqty; [|by simplify_eq].
  destruct (crosses (h inc) (h r)); [|by simplify_eq].
  clear Hstop.
  set (m := Z.min (Quantity (h inc)) (Quantity (h r))) in *.
  set (h1 := <[inc := sub_Quantity (h inc) m]> h) in *.
  set (h2 := <[r := sub_Quantity (h1 r) m]> h1) in *.
  assert (∀ q, static (h2 q) (h q)) as Hstatic
    by (intros q; apply match_step_static).
  assert (∀ l : list nat, (fun x => ID (h2 x)) <$> l = (fun x => ID (h x)) <$> l) as Hids.
  { intros l. apply list_fmap_ext. intros _ x _. apply Hstatic. }
  case_bool_decide as Hfilled.
  - apply IH in Hrun as (removed & stay & -> & Hperm & Hsub & Hord & Hst & Hoth).
    exists (r :: removed), stay. split_and!.
    + done.
    + simpl. by rewrite Hperm.
    + by apply sublist_cons.
    + intros id. rewrite Hord, Hids. rewrite fmap_cons.
      destruct (Hstatic r) as [Hid _]. rewrite Hid.
      destruct (decide (id = ID (h r))) as [->|Hne].
      * rewrite lookup_delete_eq.
        rewrite (bool_decide_eq_true_2 (_ ∈ _ :: _)) by left.
        by case_bool_decide.
      * rewrite lookup_delete_ne by done.
        rewrite (bool_decide_ext (id ∈ ID (h r) :: ((fun x => ID (h x)) <$> removed))
                   (id ∈ (fun x => ID (h x)) <$> removed)); [done|].
        rewrite elem_of_cons. split; [by intros [?|?] | by right].
    + intros q. eapply static_trans; [apply Hst|apply Hstatic].
    + intros q Hinc Hq. apply not_elem_of_cons in Hq as [Hr Hq].
      rewrite Hoth by done. by apply match_step_other.
  - apply IH in Hrun as (removed & stay & -> & Hperm & Hsub & Hord & Hst & Hoth).
    exists removed, (r :: stay). split_and!.
    + by rewrite <- app_assoc.
    + rewrite Hperm. apply Permutation_middle.
    + by apply sublist_skip.
    + intros id. by rewrite Hord, Hids.
    + intros q. eapply static_trans; [apply Hst|apply Hstatic].
    + intros q Hinc Hq. apply not_elem_of_cons in Hq as [Hr Hq].
      rewrite Hoth by done. by apply match_step_other.
Qed.

Lemma sumQty_cons t ts : sumQty (t :: ts) = TQuantity t + sumQty ts.
Proof. done. Qed.

(** The trades of a matching loop, one for each resting order it reaches, in
    the order of the side: each at the resting order's price, for the smaller
    of what is left of the incoming order (its quantity less the earlier
    trades) and the resting order's quantity. *)
Lemma matchLoop_trades crosses sym inc rest :
  ∀ h orders kept trades h' orders' side' trades',
  NoDup rest → inc ∉ rest →
  matchLoop crosses sym inc h orders kept rest trades = (h', orders', side', trades') →
  ∃ new, trades' = trades ++ new
    ∧ ∀ k t, new !! k = Some t →
        ∃ r, rest !! k = Some r
          ∧ t = {| TakerOrderID := ID (h inc);
                   MakerOrderID := ID (h r);
                   TSymbol := sym;
                   TPrice := Price (h r);
                   TQuantity := Z.min (Quantity (h inc) - sumQty (take k new))
                                      (Quantity (h r)) |}.
Proof.
  induction rest as [|r rest IH];
    intros h orders kept trades h' orders' side' trades' Hnd Hinc Hrun;
    simpl in Hrun.
  { simplify_eq. exists []. by rewrite app_nil_r. }
  apply NoDup_cons in Hnd as [Hr Hnd].
  apply not_elem_of_cons in Hinc as [Hne Hinc].
  case_bool_decide as Hqty;
    [|simplify_eq; exists []; by rewrite app_nil_r].
  destruct (crosses (h inc) (h r));
    [|simplify_eq; exists []; by rewrite app_nil_r].
  set (m := Z.min (Quantity (h inc)) (Quantity (h r))) in *.
  set (h1 := <[inc := sub_Quantity (h inc) m]> h) in *.
  set (h2 := <[r := sub_Quantity (h1 r) m]> h1) in *.
  set (trade := {| TakerOrderID := ID (h inc); MakerOrderID := ID (h r);
                   TSymbol := sym; TPrice := Price (h r); TQuantity := m |}) in *.
  assert (h2 inc = sub_Quantity (h inc) m) as Hinc2.
  { subst h2 h1. rewrite fn_lookup_insert_ne by done. by rewrite fn_lookup_insert. }
  assert (∀ q, q ∈ rest → h2 q = h q) as Hrest.
  { intros q Hq. subst h2 h1. apply match_step_other; set_solver. }
  assert (∃ new', trades' = (trades ++ [trade]) ++ new'
    ∧ ∀ k t, new' !! k = Some t →
        ∃ r', rest !! k = Some r'
          ∧ t = {| TakerOrderID := ID (h2 inc);
                   MakerOrderID := ID (h2 r');
                   TSymbol := sym;
                   TPrice := Price (h2 r');
                   TQuantity := Z.min (Quantity (h2 inc) - sumQty (take k new'))
                                      (Quantity (h2 r')) |}) as (new' & -> & Hnew).
  { case_bool_decide; eapply IH; eauto. }
  exists (trade :: new'). split; [by rewrite <- app_assoc|].
  intros [|k] t Ht; simpl in Ht.
  - injection Ht as <-. exists r. split; [done|]. subst trade m. simpl.
    unfold sumQty. simpl. do 2 f_equal. lia.
  - apply Hnew in Ht as (r' & Hr' & ->). exists r'. split; [done|].
    rewrite (Hrest r') by (by eapply list_elem_of_lookup_2).
    rewrite Hinc2. simpl. rewrite sumQty_cons. subst trade. simpl.
    do 2 f_equal. lia.
Qed.

(** ** Books reached from the empty book are well formed *)

Lemma wf_mono n n' st : (n ≤ n')%nat → wf n st → wf n' st.
Proof.
  intros Hle [H1 H2 H3 H4 H5 H6 H7]. split; try done.
  - eapply Forall_impl; [done|]. simpl. lia.
  - eapply Forall_impl; [done|]. simpl. lia.
  - intros id p Hp. destruct (H5 id p Hp). split; [done|lia].
Qed.

(** Sides that shrink, an id map that shrinks with them, and order objects
    that change in quantity only. *)
Lemma wf_shrink n st h' bids' asks' orders' :
  wf n st →
  bids' `sublist_of` Bids (book st) →
  asks' `sublist_of` Asks (book st) →
  (∀ q, static (h' q) (heap st q)) →
  (∀ id p, orders' !! id = Some p → Orders (book st) !! id = Some p) →
  (∀ p, p ∈ bids' ++ asks' → orders' !! ID (heap st p) = Some p) →
  wf n {| heap := h';
          book := {| symbol := symbol (book st); Bids := bids';
                     Asks := asks'; Orders := orders' |} |}.
Proof.
  intros [H1 H2 H3 H4 H5 H6 H7] Hb Ha Hst Hsub Hidx.
  assert (∀ q, ID (h' q) = ID (heap st q)) as Hid by (intros q; apply Hst).
  assert (∀ q, Side (h' q) = Side (heap st q)) as Hside by (intros q; apply Hst).
  split; simpl.
  - eapply Forall_forall. intros p Hp.
    eapply Forall_forall in H1; [done|]. by eapply sublist_subseteq.
  - eapply Forall_forall. intros p Hp.
    eapply Forall_forall in H2; [done|]. by eapply sublist_subseteq.
  - eapply sublist_NoDup; [done|]. by apply sublist_app.
  - intros p Hp. rewrite Hid. by apply Hidx.
  - intros id p Hp. rewrite Hid. apply H5. by apply Hsub.
  - intros p Hp. rewrite Hside. apply H6. by eapply sublist_subseteq.
  - intros p Hp. rewrite Hside. apply H7. by eapply sublist_subseteq.
Qed.

(** The object at a new address may be anything. *)
Lemma wf_alloc n st o :
  wf n st → wf n {| heap := <[n := o]> (heap st); book := book st |}.
Proof.
  intros [H1 H2 H3 H4 H5 H6 H7].
  assert (∀ p, p ∈ Bids (book st) → (p < n)%nat) as Hb
    by (intros p Hp; by eapply Forall_forall in H1).
  assert (∀ p, p ∈ Asks (book st) → (p < n)%nat) as Ha
    by (intros p Hp; by eapply Forall_forall in H2).
  assert (∀ p, (p < n)%nat → (<[n := o]> (heap st)) p = heap st p) as Hold
    by (intros p Hp; rewrite fn_lookup_insert_ne; [done|lia]).
  split; simpl; try done.
  - intros p Hp. rewrite Hold; [by apply H4|].
    apply elem_of_app in Hp as [?|?]; auto.
  - intros id p Hp. destruct (H5 id p Hp). by rewrite Hold.
  - intros p Hp. rewrite Hold; auto.
  - intros p Hp. rewrite Hold; auto.
Qed.

(** [ob.Orders[order.ID] = order] for an order object at a new address. *)
Lemma wf_index_new n st :
  wf n st →
  Orders (book st) !! ID (heap st n) = None →
  wf (S n) {| heap := heap st;
              book := {| symbol := symbol (book st); Bids := Bids (book st);
                         Asks := Asks (book st);
                         Orders := <[ID (heap st n) := n]> (Orders (book st)) |} |}.
Proof.
  intros Hwf Hnone. apply (wf_mono n (S n)) in Hwf; [|lia].
  destruct Hwf as [H1 H2 H3 H4 H5 H6 H7]. split; simpl; try done.
  - intros p Hp. specialize (H4 p Hp).
    rewrite lookup_insert_ne; [done|]. congruence.
  - intros id p Hp. apply lookup_insert_Some in Hp as [[<- <-]|[Hne Hp]].
    + split; [done|lia].
    + by apply H5.
Qed.

Lemma insertAt_Permutation i (x : nat) s : insertAt i x s ≡ₚ x :: s.
Proof.
  unfold insertAt. rewrite <- Permutation_middle. by rewrite take_drop.
Qed.

Lemma wf_addBid n st order :
  wf n st → (order < n)%nat →
  order ∉ Bids (book st) ++ Asks (book st) →
  Orders (book st) !! ID (heap st order) = Some order →
  Side (heap st order) = "buy" →
  wf n {| heap := heap st; book := addBid (heap st) order (book st) |}.
Proof.
  intros [H1 H2 H3 H4 H5 H6 H7] Hlt Hnotin Hidx Hside.
  unfold addBid. set (i := sort_Search _ _).
  pose proof (insertAt_Permutation i order (Bids (book st))) as Hperm.
  split; simpl.
  - rewrite Hperm. by constructor.
  - done.
  - rewrite Hperm. simpl. by constructor.
  - intros p. rewrite Hperm. simpl. rewrite elem_of_cons.
    intros [->|Hp]; auto.
  - done.
  - intros p. rewrite Hperm, elem_of_cons. intros [->|Hp]; auto.
  - done.
Qed.

Lemma wf_addAsk n st order :
  wf n st → (order < n)%nat →
  order ∉ Bids (book st) ++ Asks (book st) →
  Orders (book st) !! ID (heap st order) = Some order →
  Side (heap st order) ≠ "buy" →
  wf n {| heap := heap st; book := addAsk (heap st) order (book st) |}.
Proof.
  intros [H1 H2 H3 H4 H5 H6 H7] Hlt Hnotin Hidx Hside.
  unfold addAsk. set (i := sort_Search _ _).
  pose proof (insertAt_Permutation i order (Asks (book st))) as Hperm.
  split; simpl.
  - done.
  - rewrite Hperm. by constructor.
  - rewrite Hperm. rewrite <- Permutation_middle. by constructor.
  - intros p. rewrite Hperm. rewrite <- Permutation_middle, elem_of_cons.
    intros [->|Hp]; auto.
  - done.
  - done.
  - intros p. rewrite Hperm, elem_of_cons. intros [->|Hp]; auto.
Qed.

(** The id map after the ids of the [removed] resting orders have been
    deleted: the orders that stay are still indexed, nothing is added, and an
    id that no resting order carries is not touched. *)
Lemma index_after_removal n st removed keep (orders' : gmap N nat) :
  wf n st →
  Bids (book st) ++ Asks (book st) ≡ₚ removed ++ keep →
  (∀ id, orders' !! id =
         if bool_decide (id ∈ (fun r => ID (heap st r)) <$> removed) then None
         else Orders (book st) !! id) →
  (∀ p, p ∈ keep → orders' !! ID (heap st p) = Some p)
  ∧ (∀ id p, orders' !! id = Some p → Orders (book st) !! id = Some p)
  ∧ (∀ id, (∀ p, p ∈ Bids (book st) ++ Asks (book st) → ID (heap st p) ≠ id) →
           orders' !! id = Orders (book st) !! id).
Proof.
  intros [H1 H2 H3 H4 H5 H6 H7] Hperm Hord.
  split_and!.
  - intros p Hp. rewrite Hord.
    assert (p ∈ Bids (book st) ++ Asks (book st)) as Hps
      by (rewrite Hperm; apply elem_of_app; by right).
    rewrite bool_decide_eq_false_2; [by apply H4|].
    intros Hin. apply list_elem_of_fmap in Hin as (r & Hid & Hr).
    assert (r ∈ Bids (book st) ++ Asks (book st)) as Hrs
      by (rewrite Hperm; apply elem_of_app; by left).
    apply H4 in Hps, Hrs. rewrite Hid, Hrs in Hps. injection Hps as ->.
    rewrite Hperm in H3. apply NoDup_app in H3 as (_ & Hdisj & _).
    by eapply Hdisj.
  - intros id p. rewrite Hord. by case_bool_decide.
  - intros id Hfresh. rewrite Hord.
    rewrite bool_decide_eq_false_2; [done|].
    intros Hin. apply list_elem_of_fmap in Hin as (r & Hid & Hr).
    eapply (Hfresh r); [|done].
    rewrite Hperm. apply elem_of_app. by left.
Qed.

Lemma matchOrder_wf n st inc trades st2 :
  wf n st →
  matchOrder inc st = (trades, st2) →
  wf n st2
  ∧ (∀ q, static (heap st2 q) (heap st q))
  ∧ Bids (book st2) `sublist_of` Bids (book st)
  ∧ Asks (book st2) `sublist_of` Asks (book st)
  ∧ (∀ id, (∀ p, p ∈ Bids (book st) ++ Asks (book st) → ID (heap st p) ≠ id) →
           Orders (book st2) !! id = Orders (book st) !! id).
Proof.
  intros Hwf Hrun. unfold matchOrder in Hrun.
  case_bool_decide as Hside.
  - destruct (matchLoop _ _ _ _ _ _ _ _) as [[[h' orders'] asks'] trades'] eqn:Hloop.
    simplify_eq.
    apply matchLoop_effect in Hloop
      as (removed & stay & -> & Hperm & Hsub & Hord & Hst & _).
    simpl in *.
    destruct (index_after_removal n st removed (Bids (book st) ++ stay) orders')
      as (Hkeep & Hsubmap & Hfresh); [done| |done|].
    { rewrite Hperm. apply Permutation_app_swap_app. }
    split_and!; simpl; try done.
    eapply wf_shrink; eauto.
  - destruct (matchLoop _ _ _ _ _ _ _ _) as [[[h' orders'] bids'] trades'] eqn:Hloop.
    simplify_eq.
    apply matchLoop_effect in Hloop
      as (removed & stay & -> & Hperm & Hsub & Hord & Hst & _).
    simpl in *.
    destruct (index_after_removal n st removed (stay ++ Asks (book st)) orders')
      as (Hkeep & Hsubmap & Hfresh); [done| |done|].
    { rewrite Hperm. by rewrite <- app_assoc. }
    split_and!; simpl; try done.
    eapply wf_shrink; eauto.
Qed.

Lemma AddOrder_wf n st r st' :
  wf n st →
  AddOrder n st = (r, st') →
  wf (S n) st' ∧ (∀ q, static (heap st' q) (heap st q)).
Proof.
  intros Hwf Hrun. unfold AddOrder in Hrun.
  assert (wf (S n) st ∧ (∀ q, static (heap st q) (heap st q))) as Hsame.
  { split; [apply (wf_mono n); [lia|done]|]. intros q. apply static_refl. }
  case_bool_decide; [simplify_eq; exact Hsame|].
  case_bool_decide; [simplify_eq; exact Hsame|].
  case_bool_decide as Hnew; [simplify_eq; exact Hsame|].
  clear Hsame.
  apply eq_None_not_Some in Hnew.
  pose proof (wf_index_new n st Hwf Hnew) as Hwf1.
  assert (n ∉ Bids (book st) ++ Asks (book st)) as Hfresh.
  { intros Hin. destruct Hwf as [H1 H2 _ _ _ _ _].
    apply elem_of_app in Hin as [Hin|Hin];
      [eapply Forall_forall in H1|eapply Forall_forall in H2]; eauto; lia. }
  assert (∀ p, p ∈ Bids (book st) ++ Asks (book st) →
               ID (heap st p) ≠ ID (heap st n)) as Hids.
  { intros p Hp Heq. apply (wf_indexed _ _ Hwf) in Hp. congruence. }
  destruct (matchOrder _ _) as [trades st2] eqn:Hmatch.
  apply (matchOrder_wf (S n)) in Hmatch
    as (Hwf2 & Hst & Hbids & Hasks & Hkept); [|done].
  simpl in *.
  specialize (Hkept _ Hids). rewrite lookup_insert_eq in Hkept.
  assert (n ∉ Bids (book st2) ++ Asks (book st2)) as Hfresh2.
  { intros Hin. apply Hfresh.
    apply elem_of_app in Hin as [Hin|Hin]; apply elem_of_app;
      [left|right]; by eapply sublist_subseteq. }
  assert (Orders (book st2) !! ID (heap st2 n) = Some n) as Hidx.
  { destruct (Hst n) as [-> _]. done. }
  case_bool_decide; [|by simplify_eq].
  case_bool_decide; simplify_eq; (split; [|done]).
  - apply wf_addBid; auto.
  - apply wf_addAsk; auto.
Qed.

(** ** Cancelling *)

Lemma filter_other_id (p : nat) (s : list nat) :
  p ∉ s → filter (fun q => q ≠ p) s = s.
Proof.
  induction s as [|q s IH]; [done|].
  intros Hnotin. apply not_elem_of_cons in Hnotin as [Hne Hnotin].
  rewrite filter_cons_True by done. by rewrite IH.
Qed.

(** Where one order of the slice carries the id, and carries it alone, the
    removal loop takes out that order and nothing else. *)
Lemma removeByID_filter (h : nat → Order) (orderID : N) (p : nat) (s : list nat) :
  NoDup s →
  (∀ q, q ∈ s → ID (h q) = orderID ↔ q = p) →
  removeByID h orderID s = filter (fun q => q ≠ p) s.
Proof.
  induction s as [|q s IH]; [done|].
  intros Hnd Hid. apply NoDup_cons in Hnd as [Hq Hnd]. simpl.
  assert (∀ q', q' ∈ s → ID (h q') = orderID ↔ q' = p) as Hid'
    by (intros q' Hq'; apply Hid; by right).
  case_bool_decide as Hhit.
  - apply Hid in Hhit; [|by left]. subst q.
    rewrite filter_cons_False by (intros Hne; by apply Hne).
    by rewrite filter_other_id.
  - assert (q ≠ p) as Hne by (intros ->; apply Hhit, Hid; [by left|done]).
    rewrite filter_cons_True by done. by rewrite IH.
Qed.

Lemma CancelOrder_wf n st orderID order :
  wf n st →
  Orders (book st) !! orderID = Some order →
  ∃ st', Orderbook.CancelOrder orderID st = (Ok order, st')
    ∧ heap st' = heap st
    ∧ Orders (book st') = delete orderID (Orders (book st))
    ∧ Bids (book st') = filter (fun q => q ≠ order) (Bids (book st))
    ∧ Asks (book st') = filter (fun q => q ≠ order) (Asks (book st))
    ∧ wf n st'.
Proof.
  intros Hwf Hidx. pose proof Hwf as [H1 H2 H3 H4 H5 H6 H7].
  destruct (H5 _ _ Hidx) as [Hid Hlt].
  apply NoDup_app in H3 as (Hndb & Hdisj & Hnda).
  assert (∀ q, q ∈ Bids (book st) ++ Asks (book st) →
               ID (heap st q) = orderID ↔ q = order) as Hunique.
  { intros q Hq. split; [|by intros ->].
    intros Hq'. apply H4 in Hq. rewrite Hq' in Hq. congruence. }
  assert (∃ bids' asks',
    Orderbook.CancelOrder orderID st =
      (Ok order, {| heap := heap st;
                    book := {| symbol := symbol (book st); Bids := bids';
                               Asks := asks';
                               Orders := delete orderID (Orders (book st)) |} |})
    ∧ bids' = filter (fun q => q ≠ order) (Bids (book st))
    ∧ asks' = filter (fun q => q ≠ order) (Asks (book st)))
    as (bids' & asks' & Hrun & -> & ->).
  { unfold Orderbook.CancelOrder. rewrite Hidx. case_bool_decide as Hside.
    - eexists _, _. split; [done|]. split.
      + apply removeByID_filter; [done|].
        intros q Hq. apply Hunique, elem_of_app. by left.
      + symmetry. apply filter_other_id. intros Hin. by apply H7 in Hin.
    - eexists _, _. split; [done|]. split.
      + symmetry. apply filter_other_id. intros Hin. by apply H6 in Hin.
      + apply removeByID_filter; [done|].
        intros q Hq. apply Hunique, elem_of_app. by right. }
  eexists. split; [done|]. simpl. split_and!; try done.
  apply wf_shrink; try done.
  - apply sublist_filter.
  - apply sublist_filter.
  - intros id p Hp. apply lookup_delete_Some in Hp. tauto.
  - intros p Hp.
    assert (p ∈ Bids (book st) ++ Asks (book st) ∧ p ≠ order) as [Hin Hne].
    { apply elem_of_app in Hp as [Hp|Hp];
        apply list_elem_of_filter in Hp as [Hne Hp];
        (split; [apply elem_of_app; auto|done]). }
    rewrite lookup_delete_ne; [by apply H4|].
    intros Heq. apply Hne, Hunique; done.
Qed.

(** ** Every book reached from the empty one *)

Lemma step_wf ex op os :
  wf (next ex) (state ex) → tracks os ex →
  wf (next (step ex op)) (state (step ex op))
  ∧ tracks (os ++ added [op]) (step ex op).
Proof.
  intros Hwf [Hnext Hos]. destruct op as [o|orderID]; simpl.
  - unfold submit.
    destruct (AddOrder _ _) as [r st'] eqn:Hadd. simpl.
    apply (AddOrder_wf (next ex)) in Hadd as [Hwf' Hst];
      [|by apply wf_alloc].
    split; [done|]. split; simpl.
    + rewrite length_app. simpl. lia.
    + intros p o' Hp. eapply static_trans; [apply Hst|]. simpl.
      apply lookup_app_Some in Hp as [Hp|[Hge Hp]].
      * rewrite fn_lookup_insert_ne; [by apply Hos|].
        apply lookup_lt_Some in Hp. lia.
      * rewrite <- Hnext in Hp.
        destruct (p - next ex)%nat as [|d] eqn:Hd; [|done].
        simpl in Hp. injection Hp as <-.
        replace p with (next ex) by lia.
        rewrite fn_lookup_insert. apply static_refl.
  - unfold cancel. rewrite app_nil_r.
    destruct (Orders (book (state ex)) !! orderID) as [order|] eqn:Hidx.
    + destruct (CancelOrder_wf _ _ _ _ Hwf Hidx)
        as (st' & -> & Hheap & _ & _ & _ & Hwf').
      simpl. split; [done|]. split; [done|]. simpl. by rewrite Hheap.
    + unfold Orderbook.CancelOrder. rewrite Hidx. simpl. done.
Qed.

Lemma steps_wf ops : ∀ ex os,
  wf (next ex) (state ex) → tracks os ex →
  wf (next (foldl step ex ops)) (state (foldl step ex ops))
  ∧ tracks (os ++ added ops) (foldl step ex ops).
Proof.
  induction ops as [|op ops IH]; intros ex os Hwf Htr.
  { simpl. by rewrite app_nil_r. }
  assert (os ++ added (op :: ops) = (os ++ added [op]) ++ added ops) as ->
    by (rewrite <- app_assoc; f_equal; by destruct op).
  change (foldl step ex (op :: ops)) with (foldl step (step ex op) ops).
  destruct (step_wf ex op os Hwf Htr) as [Hwf' Htr']. by apply IH.
Qed.

Lemma run_wf sym ops :
  wf (next (run sym ops)) (state (run sym ops))
  ∧ tracks (added ops) (run sym ops).
Proof.
  apply (steps_wf ops (newExchange sym) []).
  - split; simpl;
      first [ done | constructor | intros p Hp; by apply elem_of_nil in Hp ].
  - split; [done|]. intros p o Hp. done.
Qed.

(** [CancelOrder] on an arbitrary state, step by step. *)
Lemma CancelOrder_found st orderID order :
  Orders (book st) !! orderID = Some order →
  ∃ st', Orderbook.CancelOrder orderID st = (Ok order, st')
    ∧ heap st' = heap st
    ∧ symbol (book st') = symbol (book st)
    ∧ Orders (book st') = delete orderID (Orders (book st))
    ∧ (Side (heap st order) = "buy" →
       Bids (book st') = removeByID (heap st) orderID (Bids (book st))
       ∧ Asks (book st') = Asks (book st))
    ∧ (Side (heap st order) ≠ "buy" →
       Bids (book st') = Bids (book st)
       ∧ Asks (book st') = removeByID (heap st) orderID (Asks (book st))).
Proof.
  intros Hidx. unfold Orderbook.CancelOrder. rewrite Hidx.
  case_bool_decide; eexists; (split; [done|]); simpl; split_and!; done.
Qed.

(** C6: [CancelOrder] of an id that the id map does not hold returns the
    not-found error and the state as it was (so the depth is the same); of an
    id that the map holds it returns the order object the map holds for it,
    leaves that object and all others untouched, deletes the id from the map
    and runs the removal loop over the side the order's [Side] names.  In
    every book reached from the empty one the map holds the order under its
    own id, and afterwards the order rests on neither side while all other
    resting orders keep their places. *)
Theorem CancelOrder_spec :
  (∀ st orderID,
     Orders (book st) !! orderID = None →
     Orderbook.CancelOrder orderID st = (Err ErrNotFound, st))
  ∧ (∀ st orderID order,
     Orders (book st) !! orderID = Some order →
     ∃ st', Orderbook.CancelOrder orderID st = (Ok order, st')
       ∧ heap st' = heap st
       ∧ symbol (book st') = symbol (book st)
       ∧ Orders (book st') = delete orderID (Orders (book st))
       ∧ (Side (heap st order) = "buy" →
          Bids (book st') = removeByID (heap st) orderID (Bids (book st))
          ∧ Asks (book st') = Asks (book st))
       ∧ (Side (heap st order) ≠ "buy" →
          Bids (book st') = Bids (book st)
          ∧ Asks (book st') = removeByID (heap st) orderID (Asks (book st))))
  ∧ (∀ sym ops orderID order,
     let st := state (run sym ops) in
     let st' := (Orderbook.CancelOrder orderID st).2 in
     Orders (book st) !! orderID = Some order →
     ID (heap st order) = orderID
     ∧ Bids (book st') = filter (fun q => q ≠ order) (Bids (book st))
     ∧ Asks (book st') = filter (fun q => q ≠ order) (Asks (book st))).
Proof.
  split_and!.
  - intros st orderID Hidx. unfold Orderbook.CancelOrder. by rewrite Hidx.
  - apply CancelOrder_found.
  - intros sym ops orderID order st st' Hidx. subst st st'.
    destruct (run_wf sym ops) as [Hwf _].
    destruct (wf_index_id _ _ Hwf _ _ Hidx) as [Hid _].
    destruct (CancelOrder_wf _ _ _ _ Hwf Hidx) as (st' & -> & _ & _ & Hb & Ha & _).
    done.
Qed.

(** ** Trades *)

Lemma AddOrder_trades order st trades st' :
  NoDup (Bids (book st)) → NoDup (Asks (book st)) →
  order ∉ Bids (book st) ++ Asks (book st) →
  AddOrder order st = (Ok trades, st') →
  ∀ k t, trades !! k = Some t →
    ∃ r,
      (if bool_decide (Side (heap st order) = "buy")
       then Asks (book st) else Bids (book st)) !! k = Some r
      ∧ t = {| TakerOrderID := ID (heap st order);
               MakerOrderID := ID (heap st r);
               TSymbol := symbol (book st);
               TPrice := Price (heap st r);
               TQuantity :=
                 Z.min (Quantity (heap st order) - sumQty (take k trades))
                       (Quantity (heap st r)) |}.
Proof.
  intros Hndb Hnda Hfresh Hrun. unfold AddOrder in Hrun.
  apply not_elem_of_app in Hfresh as [Hfb Hfa].
  repeat (case_bool_decide; [by simplify_eq|]).
  destruct (matchOrder _ _) as [trades0 st2] eqn:Hmatch.
  assert (trades = trades0) as -> by (repeat case_bool_decide; by simplify_eq).
  clear Hrun. unfold matchOrder in Hmatch. simpl in Hmatch.
  case_bool_decide as Hside.
  - destruct (matchLoop _ _ _ _ _ _ _ _) as [[[h' orders'] asks'] trades'] eqn:Hloop.
    simplify_eq.
    apply matchLoop_trades in Hloop as (new & -> & Hnew); done.
  - destruct (matchLoop _ _ _ _ _ _ _ _) as [[[h' orders'] bids'] trades'] eqn:Hloop.
    simplify_eq.
    apply matchLoop_trades in Hloop as (new & -> & Hnew); done.
Qed.



(** ** Binary search and the insertion point *)

(** On a predicate that, once true, stays true up to [n], the search returns
    the boundary: false below the result, true from the result on. *)
Lemma searchLoop_boundary (f : nat → bool) (n : nat) :
  (∀ a b, (a ≤ b)%nat → (b < n)%nat → f a = true → f b = true) →
  ∀ fuel i j,
    (j - i ≤ fuel)%nat → (i ≤ j)%nat → (j ≤ n)%nat →
    (∀ k, (k < i)%nat → f k = false) →
    (∀ k, (j ≤ k)%nat → (k < n)%nat → f k = true) →
    let r := searchLoop fuel f i j in
    (r ≤ n)%nat
    ∧ (∀ k, (k < r)%nat → f k = false)
    ∧ (∀ k, (r ≤ k)%nat → (k < n)%nat → f k = true).
Proof.
  intros Hmono. induction fuel as [|fuel IH]; intros i j Hfuel Hij Hjn Hlow Hhigh;
    cbn [searchLoop].
  { assert (i = j) as -> by lia. split_and!; auto. }
  destruct (Nat.ltb_spec i j) as [Hlt|Hge]; cycle 1.
  { assert (i = j) as -> by lia. split_and!; auto. }
  pose proof (Nat.div_mod_eq (i + j) 2) as Hdiv.
  pose proof (Nat.mod_upper_bound (i + j) 2) as Hmod.
  set (m := ((i + j) / 2)%nat) in *.
  assert (i ≤ m ∧ m < j)%nat as [Him Hmj] by lia.
  destruct (f m) eqn:Hfm; cbn [negb].
  - apply IH; try lia; [done|].
    intros k Hk Hkn. by apply (Hmono m k).
  - apply IH; try lia; [|done].
    intros k Hk. destruct (f k) eqn:Hfk; [|done].
    rewrite <- Hfm. symmetry. apply (Hmono k m); [lia|lia|done].
Qed.

Lemma sort_Search_boundary (f : nat → bool) (n : nat) :
  (∀ a b, (a ≤ b)%nat → (b < n)%nat → f a = true → f b = true) →
  (sort_Search n f ≤ n)%nat
  ∧ (∀ k, (k < sort_Search n f)%nat → f k = false)
  ∧ (∀ k, (sort_Search n f ≤ k)%nat → (k < n)%nat → f k = true).
Proof.
  intros Hmono. unfold sort_Search.
  apply (searchLoop_boundary f n Hmono n 0%nat n); lia.
Qed.

Lemma StronglySorted_sublist {A} (R : relation A) (l1 l2 : list A) :
  l1 `sublist_of` l2 → StronglySorted R l2 → StronglySorted R l1.
Proof.
  induction 1 as [|x l1 l2 Hsub IH|x l1 l2 Hsub IH]; intros Hs.
  - constructor.
  - apply StronglySorted_cons in Hs as [Hx Hs].
    constructor; [by apply IH|].
    apply Forall_forall. intros y Hy.
    eapply Forall_forall in Hx; [done|]. by eapply sublist_subseteq.
  - apply StronglySorted_cons in Hs as [_ Hs]. by apply IH.
Qed.

Lemma StronglySorted_rel_ext {A} (R R' : relation A) (l : list A) :
  (∀ x y, x ∈ l → y ∈ l → R x y → R' x y) →
  StronglySorted R l → StronglySorted R' l.
Proof.
  intros HR Hs. induction Hs as [|x l Hl IH Hx]; constructor.
  - apply IH. intros y z Hy Hz. apply HR; by right.
  - apply Forall_forall. intros y Hy.
    eapply Forall_forall in Hx; [|done]. apply HR; [by left|by right|done].
Qed.

(** The insertion point in a slice sorted by a key, for a search predicate
    that holds at an index when the key there is not below the key of the
    new element: everything before the point has a smaller key, everything
    from the point on has a key that is not smaller, and inserting at the
    point keeps the slice sorted. *)
Lemma insert_sorted_key (key : nat → Z) (x : nat) (s : list nat) (f : nat → bool) :
  StronglySorted (fun p q => key p <= key q) s →
  (∀ j q, s !! j = Some q → f j = bool_decide (key x <= key q)) →
  let i := sort_Search (length s) f in
  (i ≤ length s)%nat
  ∧ (∀ k q, s !! k = Some q → (k < i)%nat → key q < key x)
  ∧ (∀ k q, s !! k = Some q → (i ≤ k)%nat → key x <= key q)
  ∧ StronglySorted (fun p q => key p <= key q) (insertAt i x s).
Proof.
  intros Hsorted Hf i.
  assert (∀ a b qa qb, (a ≤ b)%nat → s !! a = Some qa → s !! b = Some qb →
                       key qa <= key qb) as Hord.
  { intros a b qa qb Hab Ha Hb.
    destruct (decide (a = b)) as [->|Hne]; [simplify_eq; lia|].
    rewrite <- (take_drop (S a) s) in Hsorted.
    eapply (StronglySorted_app_1_elem_of (fun p q => key p <= key q) _ _ qa qb);
      [done| |].
    - apply elem_of_take. exists a. split; [done|lia].
    - apply list_elem_of_lookup. exists (b - S a)%nat.
      rewrite lookup_drop. by replace (S a + (b - S a))%nat with b by lia. }
  destruct (sort_Search_boundary f (length s)) as (Hle & Hlow & Hhigh).
  { intros a b Hab Hb Hfa.
    destruct (lookup_lt_is_Some_2 s a) as [qa Ha]; [lia|].
    destruct (lookup_lt_is_Some_2 s b) as [qb Hb']; [lia|].
    rewrite (Hf _ _ Ha) in Hfa. rewrite (Hf _ _ Hb').
    apply bool_decide_eq_true in Hfa. apply bool_decide_eq_true.
    pose proof (Hord a b qa qb Hab Ha Hb'). lia. }
  fold i in Hle, Hlow, Hhigh.
  assert (∀ k q, s !! k = Some q → (k < i)%nat → key q < key x) as Hbefore.
  { intros k q Hk Hki. specialize (Hlow k Hki). rewrite (Hf _ _ Hk) in Hlow.
    apply bool_decide_eq_false in Hlow. lia. }
  assert (∀ k q, s !! k = Some q → (i ≤ k)%nat → key x <= key q) as Hafter.
  { intros k q Hk Hik. pose proof (lookup_lt_Some _ _ _ Hk) as Hlt.
    specialize (Hhigh k Hik Hlt). rewrite (Hf _ _ Hk) in Hhigh.
    by apply bool_decide_eq_true in Hhigh. }
  split_and!; [done|done|done|].
  unfold insertAt. rewrite <- (take_drop i s) in Hsorted.
  apply StronglySorted_app in Hsorted as (Hcross & Htake & Hdrop).
  apply StronglySorted_app_2; [|done|].
  - intros x1 x2 Hx1 Hx2. apply elem_of_take in Hx1 as (k & Hk & Hki).
    apply elem_of_cons in Hx2 as [->|Hx2].
    + pose proof (Hbefore _ _ Hk Hki). lia.
    + apply Hcross; [|done]. apply elem_of_take. eauto.
  - constructor; [done|]. apply Forall_forall. intros q Hq.
    apply list_elem_of_lookup in Hq as [k Hk]. rewrite lookup_drop in Hk.
    eapply Hafter; [done|lia].
Qed.

Lemma insertAt_lookup (i : nat) (x : nat) (s : list nat) :
  (i ≤ length s)%nat →
  insertAt i x s !! i = Some x
  ∧ ∀ k q, insertAt i x s !! k = Some q → q ≠ x →
           (k < i)%nat ∧ s !! k = Some q
           ∨ (i < k)%nat ∧ s !! (k - 1)%nat = Some q.
Proof.
  intros Hi. unfold insertAt.
  assert (length (take i s) = i) as Hlen by (rewrite length_take; lia).
  split.
  - rewrite lookup_app_r by lia. by rewrite Hlen, Nat.sub_diag.
  - intros k q Hk Hne. apply lookup_app_Some in Hk as [Hk|[Hge Hk]].
    + left. apply lookup_take_Some in Hk as [Hk Hlt]. done.
    + rewrite Hlen in Hge, Hk.
      destruct (k - i)%nat as [|d] eqn:Hd; simpl in Hk; [by simplify_eq|].
      right. split; [lia|]. rewrite lookup_drop in Hk.
      by replace (k - 1)%nat with (i + d)%nat by lia.
Qed.

(** Where [addBid] puts an order into bids that are in price order. *)
Lemma addBid_position (h : nat → Order) (order : nat) (ob : OrderBook) :
  bidsByPrice h (Bids ob) →
  bidsByPrice h (Bids (addBid h order ob))
  ∧ beforeEqualPrice h (Bids (addBid h order ob)) order (Price (h order)).
Proof.
  intros Hsorted. unfold addBid. simpl.
  set (f := fun j => match priceAt h (Bids ob) j with
                     | Some p => bool_decide (p <= Price (h order))
                     | None => false
                     end).
  destruct (insert_sorted_key (fun q => - Price (h q)) order (Bids ob) f)
    as (Hle & Hbefore & Hafter & Hins).
  { eapply StronglySorted_rel_ext; [|exact Hsorted]. simpl. intros. lia. }
  { intros j q Hj. subst f. simpl. unfold priceAt. rewrite Hj. simpl.
    apply bool_decide_ext. lia. }
  set (i := sort_Search _ f) in *.
  destruct (insertAt_lookup i order (Bids ob) Hle) as [Hat Hothers].
  split.
  - eapply StronglySorted_rel_ext; [|exact Hins]. simpl. intros. lia.
  - exists i. split; [done|]. intros k q Hk Hne Hprice.
    destruct (Hothers k q Hk Hne) as [[Hlt Hq]|[Hlt _]]; [|done].
    pose proof (Hbefore _ _ Hq Hlt). lia.
Qed.

(** Where [addAsk] puts an order into asks that are in price order. *)
Lemma addAsk_position (h : nat → Order) (order : nat) (ob : OrderBook) :
  asksByPrice h (Asks ob) →
  asksByPrice h (Asks (addAsk h order ob))
  ∧ beforeEqualPrice h (Asks (addAsk h order ob)) order (Price (h order)).
Proof.
  intros Hsorted. unfold addAsk. simpl.
  set (f := fun j => match priceAt h (Asks ob) j with
                     | Some p => bool_decide (Price (h order) <= p)
                     | None => false
                     end).
  destruct (insert_sorted_key (fun q => Price (h q)) order (Asks ob) f)
    as (Hle & Hbefore & Hafter & Hins); [done| |].
  { intros j q Hj. subst f. simpl. unfold priceAt. by rewrite Hj. }
  set (i := sort_Search _ f) in *.
  destruct (insertAt_lookup i order (Asks ob) Hle) as [Hat Hothers].
  split; [done|].
  exists i. split; [done|]. intros k q Hk Hne Hprice.
  destruct (Hothers k q Hk Hne) as [[Hlt Hq]|[Hlt _]]; [|done].
  pose proof (Hbefore _ _ Hq Hlt). lia.
Qed.

(** The ways [AddOrder] ends. *)
Lemma AddOrder_cases order st r st' :
  AddOrder order st = (r, st') →
  (is_Err r ∧ st' = st)
  ∨ ∃ trades st2,
      r = Ok trades
      ∧ matchOrder order
          {| heap := heap st;
             book := {| symbol := symbol (book st); Bids := Bids (book st);
                        Asks := Asks (book st);
                        Orders := <[ID (heap st order) := order]> (Orders (book st)) |} |}
        = (trades, st2)
      ∧ (0 < Quantity (heap st2 order) ∧ Side (heap st2 order) = "buy"
         ∧ st' = {| heap := heap st2; book := addBid (heap st2) order (book st2) |}
         ∨ 0 < Quantity (heap st2 order) ∧ Side (heap st2 order) ≠ "buy"
           ∧ st' = {| heap := heap st2; book := addAsk (heap st2) order (book st2) |}
         ∨ Quantity (heap st2 order) <= 0 ∧ st' = st2).
Proof.
  intros Hrun. unfold AddOrder in Hrun.
  repeat (case_bool_decide; [left; by simplify_eq|]).
  right. destruct (matchOrder _ _) as [trades st2].
  exists trades, st2.
  repeat case_bool_decide; simplify_eq; (split; [done|]); (split; [done|]).
  - left. done.
  - right. left. done.
  - right. right. split; [lia|done].
Qed.

Lemma priceSorted_shrink st st' :
  priceSorted st →
  Bids (book st') `sublist_of` Bids (book st) →
  Asks (book st') `sublist_of` Asks (book st) →
  (∀ q, q ∈ Bids (book st) ++ Asks (book st) →
        Price (heap st' q) = Price (heap st q)) →
  priceSorted st'.
Proof.
  intros [Hb Ha] Hsb Hsa Hprice.
  split.
  - eapply StronglySorted_sublist in Hb; [|done].
    eapply StronglySorted_rel_ext; [|exact Hb]. simpl. intros x y Hx Hy.
    rewrite !Hprice; [done| |]; apply elem_of_app; left;
      by eapply sublist_subseteq.
  - eapply StronglySorted_sublist in Ha; [|done].
    eapply StronglySorted_rel_ext; [|exact Ha]. simpl. intros x y Hx Hy.
    rewrite !Hprice; [done| |]; apply elem_of_app; right;
      by eapply sublist_subseteq.
Qed.

(** [AddOrder] of an order object at a new address keeps the price order, and
    an order that comes to rest stands before all resting orders of its
    price. *)
Lemma AddOrder_position n st r st' :
  wf n st → priceSorted st →
  AddOrder n st = (r, st') →
  priceSorted st'
  ∧ (n ∈ Bids (book st') →
     beforeEqualPrice (heap st') (Bids (book st')) n (Price (heap st n)))
  ∧ (n ∈ Asks (book st') →
     beforeEqualPrice (heap st') (Asks (book st')) n (Price (heap st n))).
Proof.
  intros Hwf Hsorted Hrun.
  assert ((n ∉ Bids (book st)) ∧ (n ∉ Asks (book st))) as [Hfb Hfa].
  { destruct Hwf as [H1 H2 _ _ _ _ _]. split; intros Hin;
      [eapply Forall_forall in H1|eapply Forall_forall in H2]; eauto; lia. }
  apply AddOrder_cases in Hrun
    as [[_ ->]|(trades & st2 & -> & Hmatch & Hend)]; [done|].
  assert (priceSorted st2 ∧ (n ∉ Bids (book st2)) ∧ (n ∉ Asks (book st2))
          ∧ Price (heap st2 n) = Price (heap st n))
    as (Hsorted2 & Hfb2 & Hfa2 & Hprice).
  { pose proof (wf_index_new n st Hwf) as Hwf1.
    unfold matchOrder in Hmatch. simpl in Hmatch.
    case_bool_decide;
      destruct (matchLoop _ _ _ _ _ _ _ _) as [[[h' orders'] side'] trades'] eqn:Hloop;
      simplify_eq;
      apply matchLoop_effect in Hloop
        as (removed & stay & -> & Hperm & Hsub & Hord & Hst & _);
      simpl in *;
      (split_and!;
       [ apply (priceSorted_shrink st); try done; intros q _; apply Hst
       | try done; intros Hin; by eapply Hfb, sublist_subseteq
       | try done; intros Hin; by eapply Hfa, sublist_subseteq
       | apply Hst ]). }
  destruct Hsorted2 as [Hb2 Ha2].
  destruct Hend as [(_ & _ & ->)|[(_ & _ & ->)|(_ & ->)]]; simpl.
  - destruct (addBid_position (heap st2) n (book st2) Hb2) as [Hb' Hpos].
    rewrite Hprice in Hpos. split_and!; [by split|done|done].
  - destruct (addAsk_position (heap st2) n (book st2) Ha2) as [Ha' Hpos].
    rewrite Hprice in Hpos. split_and!; [by split|done|done].
  - split_and!; [by split|done|done].
Qed.

Lemma CancelOrder_sorted n st orderID :
  wf n st → priceSorted st →
  priceSorted (Orderbook.CancelOrder orderID st).2.
Proof.
  intros Hwf Hsorted.
  destruct (Orders (book st) !! orderID) as [order|] eqn:Hidx.
  - destruct (CancelOrder_wf _ _ _ _ Hwf Hidx)
      as (st' & -> & Hheap & _ & Hb & Ha & _).
    simpl. apply (priceSorted_shrink st); [done| | |].
    + rewrite Hb. apply sublist_filter.
    + rewrite Ha. apply sublist_filter.
    + intros q _. by rewrite Hheap.
  - unfold Orderbook.CancelOrder. by rewrite Hidx.
Qed.

Lemma submit_position o ex :
  wf (next ex) (state ex) → priceSorted (state ex) →
  let st' := state (submit o ex).2 in
  priceSorted st'
  ∧ (next ex ∈ Bids (book st') →
     beforeEqualPrice (heap st') (Bids (book st')) (next ex) (Price o))
  ∧ (next ex ∈ Asks (book st') →
     beforeEqualPrice (heap st') (Asks (book st')) (next ex) (Price o)).
Proof.
  intros Hwf Hsorted. unfold submit.
  destruct (AddOrder _ _) as [r st'] eqn:Hadd. simpl.
  apply (AddOrder_position (next ex)) in Hadd.
  - simpl in Hadd. by rewrite fn_lookup_insert in Hadd.
  - by apply wf_alloc.
  - apply (priceSorted_shrink (state ex)); simpl; try done.
    intros q Hq. rewrite fn_lookup_insert_ne; [done|].
    intros <-. destruct Hwf as [H1 H2 _ _ _ _ _].
    apply elem_of_app in Hq as [Hq|Hq];
      [eapply Forall_forall in H1|eapply Forall_forall in H2]; eauto; lia.
Qed.

(** In every book reached from the empty one the bids are in descending and
    the asks in ascending order of price. *)
Lemma steps_sorted ops : ∀ ex os,
  wf (next ex) (state ex) → tracks os ex → priceSorted (state ex) →
  priceSorted (state (foldl step ex ops)).
Proof.
  induction ops as [|op ops IH]; intros ex os Hwf Htr Hsorted; [done|].
  change (foldl step ex (op :: ops)) with (foldl step (step ex op) ops).
  destruct (step_wf ex op os Hwf Htr) as [Hwf' Htr'].
  apply (IH _ _ Hwf' Htr').
  destruct op as [o|orderID]; simpl.
  - by apply submit_position.
  - unfold cancel.
    pose proof (CancelOrder_sorted _ _ orderID Hwf Hsorted) as Hc.
    by destruct (Orderbook.CancelOrder orderID (state ex)).
Qed.

Lemma run_sorted sym ops : priceSorted (state (run sym ops)).
Proof.
  apply (steps_sorted ops (newExchange sym) []).
  - apply (run_wf sym []).
  - apply (run_wf sym []).
  - split; constructor.
Qed.

(** ** Priority at equal price *)

(** C1, on the code: in every book reached from the empty one, an order that
    comes to rest is placed in front of all orders of the same price that
    rest on its side, so of two resting orders of equal price the later one
    is matched first.  Of two bids at price 100, the one added later (id 2)
    stands before the one added earlier (id 1), and an incoming sell at 99
    for 15 trades with it alone; the same holds for two offers and an
    incoming buy. *)
Theorem equal_price_later_order_first :
  (∀ sym ops o,
     let ex := run sym ops in
     let st' := state (submit o ex).2 in
     (next ex ∈ Bids (book st') →
      beforeEqualPrice (heap st') (Bids (book st')) (next ex) (Price o))
     ∧ (next ex ∈ Asks (book st') →
        beforeEqualPrice (heap st') (Asks (book st')) (next ex) (Price o)))
  ∧ (let bids := Examples.twoEqualBids in
     let asks := Examples.twoEqualAsks in
     ID <$> ordersOf (state bids) (Bids (book (state bids))) = [2%N; 1%N]
     ∧ (submit (limitOrder 3 "sell" 99 15) bids).1
       = Ok [ {| TakerOrderID := 3; MakerOrderID := 2; TSymbol := "BTC-USD";
                 TPrice := 100; TQuantity := 15 |} ]
     ∧ ID <$> ordersOf (state asks) (Asks (book (state asks))) = [2%N; 1%N]
     ∧ (submit (limitOrder 3 "buy" 101 15) asks).1
       = Ok [ {| TakerOrderID := 3; MakerOrderID := 2; TSymbol := "BTC-USD";
                 TPrice := 100; TQuantity := 15 |} ]).
Proof.
  split.
  - intros sym ops o ex st'. subst ex st'.
    destruct (run_wf sym ops) as [Hwf _].
    by destruct (submit_position o (run sym ops) Hwf (run_sorted sym ops))
      as (_ & Hb & Ha).
  - vm_compute. done.
Qed.

(** ** The structural invariant *)

(** C3, on the code: the price order of the two sides holds in every book
    reached from the empty one.  The invariant as a whole holds for the empty
    book and after a first sell order has come to rest, and is broken by a
    buy order that fills the sell in full: the id of the buy order stays in
    the id map although the order rests on neither side. *)
Theorem filled_incoming_order_stays_indexed :
  (∀ sym ops, priceSorted (state (run sym ops)))
  ∧ (let one := [OpAdd (limitOrder 1 "sell" 100 1)] in
     let both := one ++ [OpAdd (limitOrder 2 "buy" 100 1)] in
     Spec.bookInvariant (state (run "BTC-USD" [])) = true
     ∧ Spec.bookInvariant (state (run "BTC-USD" one)) = true
     ∧ Spec.bookInvariant (state (run "BTC-USD" both)) = false
     ∧ Bids (book (state (run "BTC-USD" both))) = []
     ∧ Asks (book (state (run "BTC-USD" both))) = []
     ∧ Orders (book (state (run "BTC-USD" both))) !! 2%N = Some 1%nat).
Proof.
  split; [apply run_sorted|]. vm_compute. done.
Qed.

(** ** Settlement *)

Lemma processTrades_id (trades : list Trade) (db : DB) :
  Manager.processTrades trades db = db.
Proof. unfold Manager.processTrades. by induction trades. Qed.

(** C9, on the code: [processTrades] moves nothing, whatever the trades.
    After the sell of user 1 and the buy of user 2 have matched in full
    (nothing rests in the book), the buyer's 100 USD and the seller's 1 BTC
    are still locked, the seller has no USD row and the buyer no BTC row.
    And [UpdateBalancesForFill] settles one participant per call: when the
    buyer's call succeeds and the seller's fails, the transaction holds the
    buyer's two changes and none of the seller's. *)
Theorem matched_trade_is_not_settled :
  (∀ trades db, Manager.processTrades trades db = db)
  ∧ (let sys := Examples.afterBothOrders in
     (Handlers.books sys !! "BTC-USD" ≫= (fun bk => Some (Bids bk, Asks bk)))
       = Some ([], [])
     ∧ balances (Handlers.db sys) !! (2%N, "USD") = Some {| Available := 0; Locked := 100 |}
     ∧ balances (Handlers.db sys) !! (1%N, "USD") = None
     ∧ balances (Handlers.db sys) !! (1%N, "BTC") = Some {| Available := 0; Locked := 1 |}
     ∧ balances (Handlers.db sys) !! (2%N, "BTC") = None)
  ∧ (let buyerLeg := UpdateBalancesForFill 2 "BTC" "USD" 1 100 "buy" Examples.sellerShort in
     let sellerLeg := UpdateBalancesForFill 1 "BTC" "USD" 1 100 "sell" buyerLeg.2 in
     buyerLeg.1 = None
     ∧ sellerLeg.1 = Some ErrSellFillLocked
     ∧ balances sellerLeg.2 !! (2%N, "USD") = Some {| Available := 0; Locked := 0 |}
     ∧ balances sellerLeg.2 !! (2%N, "BTC") = Some {| Available := 1; Locked := 0 |}
     ∧ balances sellerLeg.2 !! (1%N, "BTC") = Some {| Available := 0; Locked := 0 |}
     ∧ balances sellerLeg.2 !! (1%N, "USD") = None).
Proof.
  split; [apply processTrades_id|]. split; vm_compute; done.
Qed.

(** ** Funds of an order: locked at creation, released at cancellation *)

Lemma SubmitOrder_db order h bks tx :
  (Manager.SubmitOrder order h bks tx).2 = tx.
Proof.
  unfold Manager.SubmitOrder.
  destruct (Manager.GetOrCreateBook _ _) as [bk bks1].
  destruct (AddOrder _ _) as [[trades|e] st]; simpl; [|done].
  case_bool_decide; [apply processTrades_id|done].
Qed.

(** What an accepted request has gone through. *)
Lemma CreateOrder_created userID newID req sys order sys1 :
  Handlers.CreateOrder userID newID req sys = (Handlers.StatusCreated order, sys1) →
  let symbol := Strings.ToUpper (Strings.TrimSpace (Handlers.rSymbol req)) in
  let type := Strings.ToLower (Strings.TrimSpace (Handlers.rType req)) in
  let side := Strings.ToLower (Strings.TrimSpace (Handlers.rSide req)) in
  let row := {| ID := newID; UserID := userID; Symbol := symbol; Type_ := type;
                Side := side;
                Price := if bool_decide (type = "limit")
                         then Handlers.rPrice req else 0;
                Quantity := Handlers.rQuantity req; Status := "open" |} in
  ∃ baseAsset quoteAsset lockAsset lockAmount tx2,
    Strings.Split symbol "-"%char = [baseAsset; quoteAsset]
    ∧ 0 < Handlers.rQuantity req
    ∧ (side = "buy" ∨ side = "sell")
    ∧ (type = "limit" ∧ 0 < Handlers.rPrice req ∨ type = "market")
    ∧ Handlers.lockFor baseAsset quoteAsset side type
        (Handlers.rPrice req) (Handlers.rQuantity req) = Some (lockAsset, lockAmount)
    ∧ LockFunds userID lockAsset lockAmount
        (GetOrCreateBalanceInTx userID lockAsset (Handlers.db sys)).2 = (None, tx2)
    ∧ orders tx2 !! newID = None
    ∧ Handlers.db sys1 = {| balances := balances tx2;
                            orders := <[newID := row]> (orders tx2) |}.
Proof.
  intros Hrun symbol type side row. unfold Handlers.CreateOrder in Hrun.
  fold symbol type side in Hrun.
  destruct (bool_decide (symbol = "") || bool_decide (Handlers.rQuantity req <= 0))
    eqn:Hq; [done|].
  apply orb_false_elim in Hq as [_ Hq]. apply bool_decide_eq_false in Hq.
  destruct (Strings.Split symbol "-") as [|baseAsset [|quoteAsset [|? ?]]] eqn:Hsplit;
    try done.
  destruct (_ || _); [done|].
  destruct (bool_decide (side ≠ "buy") && bool_decide (side ≠ "sell")) eqn:Hs; [done|].
  destruct (bool_decide (type ≠ "limit") && bool_decide (type ≠ "market")) eqn:Ht; [done|].
  destruct (bool_decide (type = "limit") && bool_decide (Handlers.rPrice req <= 0))
    eqn:Hp; [done|].
  destruct (Handlers.lockFor _ _ _ _ _ _) as [[lockAsset lockAmount]|] eqn:Hlock;
    [|done].
  destruct (GetOrCreateBalanceInTx _ _ _) as [b0 tx1] eqn:Hget.
  destruct (LockFunds _ _ _ _) as [[err|] tx2] eqn:Hlk; [done|].
  unfold Database.CreateOrder in Hrun.
  destruct (orders tx2 !! newID) eqn:Hfree; [done|].
  pose proof (SubmitOrder_db (Handlers.nextPtr sys)
                (<[Handlers.nextPtr sys := row]> (Handlers.mem sys))
                (Handlers.books sys)
                {| balances := balances tx2; orders := <[newID := row]> (orders tx2) |})
    as Hdb.
  fold row in Hrun.
  destruct (Manager.SubmitOrder _ _ _ _) as [[[e h'] books'] db'].
  simpl in Hdb. subst db'. simplify_eq. simpl.
  exists baseAsset, quoteAsset, lockAsset, lockAmount, tx2.
  split_and!; try done.
  - lia.
  - apply andb_false_iff in Hs as [Hs|Hs]; apply bool_decide_eq_false in Hs;
      [left|right]; by apply dec_stable.
  - apply andb_false_iff in Ht as [Ht|Ht]; apply bool_decide_eq_false in Ht;
      apply dec_stable in Ht; [left|by right].
    split; [done|].
    rewrite (bool_decide_eq_true_2 _ Ht) in Hp. simpl in Hp.
    apply bool_decide_eq_false in Hp. lia.
  - by rewrite Hget.
Qed.


Lemma unlockFor_lockFor baseAsset quoteAsset side type price quantity row x :
  Handlers.lockFor baseAsset quoteAsset side type price quantity = Some x →
  Side row = side → Type_ row = type → Quantity row = quantity →
  Price row = (if bool_decide (type = "limit") then price else 0) →
  Handlers.unlockFor baseAsset quoteAsset row = Some x.
Proof.
  unfold Handlers.lockFor, Handlers.unlockFor.
  intros Hlock -> -> -> ->.
  case_bool_decide; [|done]. by case_bool_decide.
Qed.




(** * Further properties of the code *)

(** ** [UnlockFunds] *)




(** ** Balances stay non-negative *)

Import Funds.

Lemma updateBalance_nonNegative u a cond set tx :
  (∀ b, cond b = true → 0 <= Available b → 0 <= Locked b →
        0 <= Available (set b) ∧ 0 <= Locked (set b)) →
  nonNegative tx → nonNegative (updateBalance u a cond set tx).2.
Proof.
  intros Hset Hnn. unfold updateBalance.
  destruct (balances tx !! (u, a)) as [bal|] eqn:Hrow; [|done].
  destruct (cond bal) eqn:Hcond; [|done]. simpl.
  intros k b Hk. simpl in Hk. apply lookup_insert_Some in Hk as [[<- <-]|[_ Hk]].
  - destruct (Hnn _ _ Hrow). by apply Hset.
  - by eapply Hnn.
Qed.

Lemma LockFunds_nonNegative u a x tx :
  nonNegative tx → nonNegative (LockFunds u a x tx).2.
Proof.
  intros Hnn. unfold LockFunds. case_bool_decide as Hpos; [done|].
  pose proof (updateBalance_nonNegative u a
    (fun b => bool_decide (x <= Available b))
    (fun b => {| Available := Available b - x; Locked := Locked b + x |}) tx) as Hupd.
  destruct (updateBalance _ _ _ _ _) as [rows tx']. simpl in Hupd.
  assert (nonNegative tx') as Hnn'.
  { apply Hupd; [|done]. intros b Hc ??. apply bool_decide_eq_true in Hc.
    simpl. lia. }
  case_bool_decide; [|done]. by destruct (GetBalanceInTx u a tx').
Qed.

Lemma UnlockFunds_nonNegative u a x tx :
  nonNegative tx → nonNegative (UnlockFunds u a x tx).2.
Proof.
  intros Hnn. unfold UnlockFunds. case_bool_decide as Hpos; [done|].
  pose proof (updateBalance_nonNegative u a
    (fun b => bool_decide (x <= Locked b))
    (fun b => {| Available := Available b + x; Locked := Locked b - x |}) tx) as Hupd.
  destruct (updateBalance _ _ _ _ _) as [rows tx']. simpl in Hupd.
  assert (nonNegative tx') as Hnn'.
  { apply Hupd; [|done]. intros b Hc ??. apply bool_decide_eq_true in Hc.
    simpl. lia. }
  by case_bool_decide.
Qed.

(** X3: No sequence of [LockFunds] and [UnlockFunds] calls, with whatever
    amounts, makes an available or a locked amount negative. *)
Theorem ledger_calls_nonNegative (calls : list Ledger.Call) (tx : DB) :
  nonNegative tx → nonNegative (foldl Ledger.call tx calls).
Proof.
  revert tx. induction calls as [|c calls IH]; intros tx Hnn; [done|].
  simpl. apply IH. destruct c; simpl;
    [by apply LockFunds_nonNegative | by apply UnlockFunds_nonNegative].
Qed.

Lemma ledger_calls_nonNegative_witness :
  nonNegative
    (foldl Ledger.call
       {| balances := {[ (1%N, "USD") := {| Available := 10; Locked := 0 |} ]};
          orders := ∅ |}
       [Ledger.Lock 1 "USD" 4; Ledger.Unlock 1 "USD" 7; Ledger.Lock 1 "USD" 9]).
Proof.
  apply (ledger_calls_nonNegative
           [Ledger.Lock 1 "USD" 4; Ledger.Unlock 1 "USD" 7; Ledger.Lock 1 "USD" 9]).
  intros k bal Hk. simpl in Hk. apply lookup_singleton_Some in Hk as [_ <-]. simpl. lia.
Defined.

(** ** Settling a fill *)






(** X5: [UpdateBalancesForFill] for one participant: it succeeds exactly when the
    side is "buy" and the user's quote row has the quote amount locked, or
    the side is "sell" and the user's base row has the base amount locked; a
    call that fails changes nothing; no call touches the rows of another
    user or the orders. *)
Theorem UpdateBalancesForFill_outcome userID baseAsset quoteAsset baseAmount
    quoteAmount side tx :
  let r := UpdateBalancesForFill userID baseAsset quoteAsset
             baseAmount quoteAmount side tx in
  (r.1 = None ↔
     (side = "buy" ∧ ∃ bal, balances tx !! (userID, quoteAsset) = Some bal
                            ∧ quoteAmount <= Locked bal)
     ∨ (side = "sell" ∧ ∃ bal, balances tx !! (userID, baseAsset) = Some bal
                               ∧ baseAmount <= Locked bal))
  ∧ (r.1 ≠ None → r.2 = tx)
  ∧ (∀ k, k.1 ≠ userID → balances r.2 !! k = balances tx !! k)
  ∧ orders r.2 = orders tx.
Proof.
  assert (∀ dec inc (decAmount incAmount : Z) (e : DBError),
    let r := (let '(rows, tx1) := decreaseLocked userID dec decAmount tx in
              if bool_decide (rows ≠ 1%nat) then (Some e, tx1)
              else (None, upsertAvailable userID inc incAmount tx1)) in
    (r.1 = None ↔ ∃ bal, balances tx !! (userID, dec) = Some bal
                         ∧ decAmount <= Locked bal)
    ∧ (r.1 ≠ None → r.2 = tx)
    ∧ (∀ k, k.1 ≠ userID → balances r.2 !! k = balances tx !! k)
    ∧ orders r.2 = orders tx) as Hleg.
  { intros dec inc decAmount incAmount e.
    unfold decreaseLocked, updateBalance.
    destruct (balances tx !! (userID, dec)) as [bal|] eqn:Hrow;
      [case_bool_decide as Hle|].
    - rewrite bool_decide_eq_false_2 by (intros H; by apply H).
      unfold upsertAvailable. simpl. split_and!.
      + split; [eauto|done].
      + done.
      + intros k Hk. rewrite !lookup_insert_ne; [done| |]; by intros <-.
      + done.
    - simpl. split_and!; try done.
      split; [done|]. intros (bal' & ? & ?). simplify_eq. lia.
    - simpl. split_and!; try done.
      split; [done|]. by intros (bal' & ? & ?). }
  intros r. subst r. unfold UpdateBalancesForFill.
  case_bool_decide as Hbuy; [|case_bool_decide as Hsell].
  - destruct (Hleg quoteAsset baseAsset quoteAmount baseAmount ErrBuyFillLocked)
      as (Hok & Hfail & Hframe & Hord).
    split_and!; try done. rewrite Hok. split; [by left; split|].
    intros [[_ ?]|[-> _]]; done.
  - destruct (Hleg baseAsset quoteAsset baseAmount quoteAmount ErrSellFillLocked)
      as (Hok & Hfail & Hframe & Hord).
    split_and!; try done. rewrite Hok. split; [by right; split|].
    intros [[? _]|[_ ?]]; done.
  - simpl. split_and!; try done. split; [done|]. intros [[? _]|[? _]]; done.
Qed.

(** X6: A fill of non-negative amounts keeps all balances non-negative. *)
Theorem UpdateBalancesForFill_nonNegative userID baseAsset quoteAsset
    baseAmount quoteAmount side tx :
  0 <= baseAmount → 0 <= quoteAmount →
  nonNegative tx →
  nonNegative (UpdateBalancesForFill userID baseAsset quoteAsset
                 baseAmount quoteAmount side tx).2.
Proof.
  intros Hb Hq Hnn.
  assert (∀ dec inc (decAmount incAmount : Z) (e : DBError),
    0 <= decAmount → 0 <= incAmount →
    nonNegative
      (let '(rows, tx1) := decreaseLocked userID dec decAmount tx in
       if bool_decide (rows ≠ 1%nat) then (Some e, tx1)
       else (None, upsertAvailable userID inc incAmount tx1)).2) as Hleg.
  { intros dec inc decAmount incAmount e Hd Hi.
    unfold decreaseLocked.
    pose proof (updateBalance_nonNegative userID dec
      (fun b => bool_decide (decAmount <= Locked b))
      (fun b => {| Available := Available b; Locked := Locked b - decAmount |}) tx)
      as Hupd.
    destruct (updateBalance _ _ _ _ _) as [rows tx1]. simpl in Hupd.
    assert (nonNegative tx1) as Hnn1.
    { apply Hupd; [|done]. intros b Hc ??. apply bool_decide_eq_true in Hc.
      simpl. lia. }
    case_bool_decide; [done|]. simpl. unfold upsertAvailable.
    intros k b Hk. simpl in Hk.
    apply lookup_insert_Some in Hk as [[<- <-]|[_ Hk]]; [|by eapply Hnn1].
    destruct (balances tx1 !! (userID, inc)) as [old|] eqn:Hold; simpl; [|lia].
    destruct (Hnn1 _ _ Hold). lia. }
  unfold UpdateBalancesForFill.
  case_bool_decide; [by apply Hleg|]. case_bool_decide; [by apply Hleg|done].
Qed.

Lemma UpdateBalancesForFill_nonNegative_witness :
  nonNegative (UpdateBalancesForFill 2 "BTC" "USD" 1 100 "buy"
                 Examples.sellerShort).2.
Proof.
  apply UpdateBalancesForFill_nonNegative; [lia|lia|].
  intros k bal Hk. unfold Examples.sellerShort in Hk. simpl in Hk.
  apply lookup_insert_Some in Hk as [[_ <-]|[_ Hk]]; [simpl; lia|].
  apply lookup_singleton_Some in Hk as [_ <-]. simpl. lia.
Defined.

(** ** [GetOrCreateBalanceInTx] *)

(** X7: [GetOrCreateBalanceInTx] returns the row that the table holds afterwards
    for the user and the asset; an existing row is returned as it is and the
    table is not changed; a missing row is created with zero amounts; no
    other row is touched, and a second call returns the same row and changes
    nothing. *)
Theorem GetOrCreateBalanceInTx_spec (userID : N) (asset : string) (tx : DB) :
  let r := GetOrCreateBalanceInTx userID asset tx in
  balances r.2 !! (userID, asset) = Some r.1
  ∧ (∀ bal, balances tx !! (userID, asset) = Some bal → r = (bal, tx))
  ∧ (balances tx !! (userID, asset) = None →
     r.1 = {| Available := 0; Locked := 0 |})
  ∧ (∀ k, k ≠ (userID, asset) → balances r.2 !! k = balances tx !! k)
  ∧ orders r.2 = orders tx
  ∧ GetOrCreateBalanceInTx userID asset r.2 = r.
Proof.
  intros r. subst r. unfold GetOrCreateBalanceInTx, GetBalanceInTx.
  destruct (balances tx !! (userID, asset)) as [bal|] eqn:Hrow; simpl.
  - rewrite Hrow. split_and!; try done. by intros ? [= ->].
  - rewrite lookup_insert_eq. split_and!; try done.
    intros k Hk. by rewrite lookup_insert_ne.
Qed.

(** ** Cancelling an order row *)

Lemma order_row_cancelled_once_aux (userID orderID : N) (tx tx' : DB) (order : Order) :
  Database.CancelOrder userID orderID tx = (inr order, tx') →
  orders tx !! orderID = Some order
  ∧ UserID order = userID ∧ Status order = "open"
  ∧ balances tx' = balances tx
  ∧ orders tx' = <[orderID := set_Status order "cancelled"]> (orders tx).
Proof.
  intros Hrun. unfold Database.CancelOrder in Hrun.
  destruct (orders tx !! orderID) as [row|] eqn:Hrow; [|done].
  case_bool_decide as Huser; [done|].
  case_bool_decide as Hstatus; [done|].
  by simplify_eq.
Qed.

(** X8: [database.CancelOrder] succeeds only for an open order of the user and
    returns the row as it was; it changes the status of that row to
    "cancelled" and nothing else; a second cancellation of the order is
    refused as not cancellable and changes nothing. *)
Theorem order_row_cancelled_once (userID orderID : N) (tx tx' : DB) (order : Order) :
  Database.CancelOrder userID orderID tx = (inr order, tx') →
  orders tx !! orderID = Some order
  ∧ UserID order = userID ∧ Status order = "open"
  ∧ balances tx' = balances tx
  ∧ orders tx' = <[orderID := set_Status order "cancelled"]> (orders tx)
  ∧ Database.CancelOrder userID orderID tx' = (inl ErrNotCancellable, tx').
Proof.
  intros Hrun. unfold Database.CancelOrder in Hrun.
  destruct (orders tx !! orderID) as [row|] eqn:Hrow; [|done].
  case_bool_decide as Huser; [done|].
  case_bool_decide as Hstatus; [done|].
  simplify_eq.
  split_and!; try done.
  unfold Database.CancelOrder. simpl. rewrite lookup_insert_eq. simpl.
  by case_bool_decide.
Qed.

Lemma order_row_cancelled_once_witness :
  let row := {| ID := 10; UserID := 1; Symbol := "BTC-USD"; Type_ := "limit";
                Side := "sell"; Price := 100; Quantity := 1; Status := "open" |} in
  let tx := {| balances := ∅; orders := {[ 10%N := row ]} |} in
  let tx' := {| balances := ∅;
                orders := {[ 10%N := set_Status row "cancelled" ]} |} in
  orders tx !! 10%N = Some row
  ∧ UserID row = 1%N ∧ Status row = "open"
  ∧ balances tx' = balances tx
  ∧ orders tx' = <[10%N := set_Status row "cancelled"]> (orders tx)
  ∧ Database.CancelOrder 1 10 tx' = (inl ErrNotCancellable, tx').
Proof.
  intros row tx tx'.
  apply (order_row_cancelled_once 1 10 tx tx' row). reflexivity.
Defined.

(** ** Requests that are refused *)

Lemma CreateOrder_cases userID newID req sys :
  (Handlers.CreateOrder userID newID req sys).2 = sys
  ∨ ∃ order, (Handlers.CreateOrder userID newID req sys).1
             = Handlers.StatusCreated order.
Proof.
  unfold Handlers.CreateOrder.
  destruct (_ || _); [by left|].
  destruct (Strings.Split _ _) as [|baseAsset [|quoteAsset [|? ?]]];
    try by left.
  repeat (match goal with
          | |- context [if ?b && ?c then _ else _] =>
              destruct (b && c); [by left|]
          | |- context [if ?b || ?c then _ else _] =>
              destruct (b || c); [by left|]
          end).
  destruct (Handlers.lockFor _ _ _ _ _ _) as [[lockAsset lockAmount]|]; [|by left].
  destruct (GetOrCreateBalanceInTx _ _ _) as [b0 tx1].
  destruct (LockFunds _ _ _ _) as [[err|] tx2]; [by left|].
  destruct (Database.CreateOrder _ _ _) as [[[e|] order'] tx3]; [by left|].
  destruct (Manager.SubmitOrder _ _ _ _) as [[[e h'] books'] db'].
  right. eauto.
Qed.

Lemma CancelOrder_cases userID orderID sys :
  (Handlers.CancelOrder userID orderID sys).2 = sys
  ∨ (Handlers.CancelOrder userID orderID sys).1 = Handlers.StatusOK.
Proof.
  unfold Handlers.CancelOrder.
  destruct (Database.CancelOrder _ _ _) as [[e|originalOrder] tx1].
  { destruct e; by left. }
  destruct (_ !! 0%nat) as [baseAsset|]; [|by left].
  destruct (_ !! 1%nat) as [quoteAsset|]; [|by left].
  destruct (Handlers.unlockFor _ _ _) as [[unlockAsset unlockAmount]|]; [|by left].
  destruct (UnlockFunds _ _ _ _) as [[e|] tx2]; [by left|].
  destruct (Manager.CancelOrder _ _ _) as [[e h'] books'].
  by right.
Qed.

(** X9: A request to place an order that is not answered with 201, and a request
    to cancel an order that is not answered with 200, leave the database,
    the order objects and the books exactly as they were. *)
Theorem refused_request_changes_nothing (sys : Handlers.System) :
  (∀ userID newID req,
     (∀ order, (Handlers.CreateOrder userID newID req sys).1
               ≠ Handlers.StatusCreated order) →
     (Handlers.CreateOrder userID newID req sys).2 = sys)
  ∧ (∀ userID orderID,
     (Handlers.CancelOrder userID orderID sys).1 ≠ Handlers.StatusOK →
     (Handlers.CancelOrder userID orderID sys).2 = sys).
Proof.
  split.
  - intros userID newID req Hno.
    destruct (CreateOrder_cases userID newID req sys) as [?|[order Ho]]; [done|].
    by destruct (Hno order).
  - intros userID orderID Hno.
    by destruct (CancelOrder_cases userID orderID sys).
Qed.

(** ** What the order routes do to the ledger *)

Import Reserve.

(** The database after a request to place an order: as before, or with the
    funds of the order locked and its row added. *)
Lemma CreateOrder_db_effect userID newID req sys :
  let sys1 := (Handlers.CreateOrder userID newID req sys).2 in
  Handlers.db sys1 = Handlers.db sys
  ∨ ∃ row lockAsset lockAmount bal,
      orders (Handlers.db sys) !! newID = None
      ∧ balances (Handlers.db sys) !! (userID, lockAsset) = Some bal
      ∧ 0 < lockAmount <= Available bal
      ∧ Handlers.db sys1
        = {| balances :=
               <[(userID, lockAsset) :=
                   {| Available := Available bal - lockAmount;
                      Locked := Locked bal + lockAmount |}]>
                 (balances (Handlers.db sys));
             orders := <[newID := row]> (orders (Handlers.db sys)) |}
      ∧ ∀ u a, reservedBy u a row
               = if bool_decide (u = userID ∧ a = lockAsset) then lockAmount else 0.
Proof.
  intros sys1. subst sys1.
  destruct (CreateOrder_cases userID newID req sys) as [->|[order Ho]];
    [by left|].
  destruct (Handlers.CreateOrder userID newID req sys) as [resp sys1] eqn:Hr.
  simpl in Ho. subst resp.
  apply CreateOrder_created in Hr
    as (baseAsset & quoteAsset & lockAsset & lockAmount & tx2
        & Hsplit & Hqty & Hside & Htype & Hlock & Hlk & Hfree & Hdb).
  set (row := {| ID := newID; UserID := userID;
                 Symbol := Strings.ToUpper (Strings.TrimSpace (Handlers.rSymbol req));
                 Type_ := Strings.ToLower (Strings.TrimSpace (Handlers.rType req));
                 Side := Strings.ToLower (Strings.TrimSpace (Handlers.rSide req));
                 Price := if bool_decide
                               (Strings.ToLower (Strings.TrimSpace (Handlers.rType req))
                                = "limit")
                          then Handlers.rPrice req else 0;
                 Quantity := Handlers.rQuantity req; Status := "open" |}) in *.
  unfold LockFunds in Hlk.
  case_bool_decide as Hpos; [done|].
  destruct (updateBalance _ _ _ _ _) as [rows tx1'] eqn:Hupd.
  case_bool_decide as Hrows; [by destruct (GetBalanceInTx _ _ _)|].
  simplify_eq.
  unfold updateBalance, GetOrCreateBalanceInTx, GetBalanceInTx in Hupd.
  destruct (balances (Handlers.db sys) !! (userID, lockAsset)) as [bal|] eqn:Hbal;
    simpl in Hupd; cycle 1.
  { rewrite lookup_insert_eq in Hupd. simpl in Hupd.
    rewrite bool_decide_eq_false_2 in Hupd by lia. simplify_eq. }
  rewrite Hbal in Hupd.
  case_bool_decide as Hle; simplify_eq. simpl in *.
  right. exists row, lockAsset, lockAmount, bal.
  split_and!; try done; [lia|].
  intros u a. unfold reservedBy.
  assert (Handlers.unlockFor baseAsset quoteAsset row = Some (lockAsset, lockAmount))
    as Hunlock by (by eapply unlockFor_lockFor).
  change (Symbol row)
    with (Strings.ToUpper (Strings.TrimSpace (Handlers.rSymbol req))).
  rewrite Hsplit. simpl. rewrite Hunlock.
  destruct (decide (u = userID ∧ a = lockAsset)) as [[-> ->]|Hne].
  - by rewrite !bool_decide_eq_true_2.
  - rewrite (bool_decide_eq_false_2 (u = userID ∧ a = lockAsset)) by done.
    case_bool_decide as Hu; [|done]. case_bool_decide as Ha; [|done].
    destruct Hne. destruct Hu as [_ Hu]. simpl in Hu. by split.
Qed.

(** The database after a request to cancel an order: as before, or with the
    funds of the order released and its row marked as cancelled. *)
Lemma CancelOrder_db_effect userID orderID sys :
  let sys1 := (Handlers.CancelOrder userID orderID sys).2 in
  Handlers.db sys1 = Handlers.db sys
  ∨ ∃ row asset amount bal,
      orders (Handlers.db sys) !! orderID = Some row
      ∧ balances (Handlers.db sys) !! (userID, asset) = Some bal
      ∧ 0 < amount <= Locked bal
      ∧ Handlers.db sys1
        = {| balances :=
               <[(userID, asset) :=
                   {| Available := Available bal + amount;
                      Locked := Locked bal - amount |}]>
                 (balances (Handlers.db sys));
             orders := <[orderID := set_Status row "cancelled"]>
                         (orders (Handlers.db sys)) |}
      ∧ (∀ u a, reservedBy u a row
                = if bool_decide (u = userID ∧ a = asset) then amount else 0)
      ∧ ∀ u a, reservedBy u a (set_Status row "cancelled") = 0.
Proof.
  intros sys1. subst sys1. unfold Handlers.CancelOrder.
  destruct (Database.CancelOrder _ _ _) as [[e|row] tx1] eqn:Hc.
  { destruct e; by left. }
  apply order_row_cancelled_once_aux in Hc as (Hrow & Huser & Hstatus & Hb & Ho).
  destruct (_ !! 0%nat) as [baseAsset|] eqn:H0; [|by left].
  destruct (_ !! 1%nat) as [quoteAsset|] eqn:H1; [|by left].
  destruct (Handlers.unlockFor _ _ _) as [[asset amount]|] eqn:Hunlock; [|by left].
  unfold UnlockFunds, updateBalance.
  case_bool_decide as Hpos; [by left|].
  rewrite Hb.
  destruct (balances (Handlers.db sys) !! (userID, asset)) as [bal|] eqn:Hbal;
    [|by left].
  case_bool_decide as Hle; [|by left].
  rewrite bool_decide_eq_false_2 by (intros H; by apply H).
  destruct (Manager.CancelOrder _ _ _) as [[e h'] books']. simpl.
  right. exists row, asset, amount, bal.
  split_and!; [done|done|lia|done|by rewrite Ho| |].
  - intros u a. unfold reservedBy. rewrite H0, H1, Hunlock.
    destruct (decide (u = userID ∧ a = asset)) as [[-> ->]|Hne].
    + by rewrite !bool_decide_eq_true_2.
    + rewrite (bool_decide_eq_false_2 (u = userID ∧ a = asset)) by done.
      case_bool_decide as Hu; [|done]. case_bool_decide as Ha; [|done].
      destruct Hne. destruct Hu as [_ Hu]. split; congruence.
  - intros u a. unfold reservedBy.
    case_bool_decide as Hs; [|done]. by destruct Hs as [Hs _].
Qed.

Lemma handle_db_effect sys r :
  let sys1 := Api.handle sys r in
  Handlers.db sys1 = Handlers.db sys
  ∨ ∃ userID asset id (old : option Order) row (delta : Z) bal,
      orders (Handlers.db sys) !! id = old
      ∧ balances (Handlers.db sys) !! (userID, asset) = Some bal
      ∧ (0 < delta <= Available bal ∨ 0 < - delta <= Locked bal)
      ∧ Handlers.db sys1
        = {| balances :=
               <[(userID, asset) :=
                   {| Available := Available bal - delta;
                      Locked := Locked bal + delta |}]>
                 (balances (Handlers.db sys));
             orders := <[id := row]> (orders (Handlers.db sys)) |}
      ∧ ∀ u a, reservedBy u a row - from_option (reservedBy u a) 0 old
               = if bool_decide (u = userID ∧ a = asset) then delta else 0.
Proof.
  destruct r as [userID newID req|userID orderID|symbol]; simpl; cycle 2.
  { left. unfold Handlers.GetOrderBookDepth. case_bool_decide; [done|].
    by destruct (Manager.GetBookDepth _ _ _). }
  - destruct (CreateOrder_db_effect userID newID req sys)
      as [?|(row & asset & amount & bal & Hfree & Hbal & Hle & Hdb & Hres)];
      [by left|].
    right. exists userID, asset, newID, None, row, amount, bal.
    split_and!; [done|done|left; lia|done|].
    intros u a. rewrite Hres. simpl. lia.
  - destruct (CancelOrder_db_effect userID orderID sys)
      as [?|(row & asset & amount & bal & Hrow & Hbal & Hle & Hdb & Hres & Hzero)];
      [by left|].
    right. exists userID, asset, orderID, (Some row),
             (set_Status row "cancelled"), (- amount), bal.
    split_and!; [done|done|right; lia| |].
    + rewrite Hdb. do 3 f_equal; lia.
    + intros u a. rewrite Hzero. simpl. rewrite Hres. case_bool_decide; lia.
Qed.


(** X11: No sequence of requests makes an available or a locked amount
    negative. *)
Theorem requests_keep_nonNegative (rs : list Api.Request) (sys : Handlers.System) :
  nonNegative (Handlers.db sys) →
  nonNegative (Handlers.db (Api.serve sys rs)).
Proof.
  unfold Api.serve. revert sys.
  induction rs as [|r rs IH]; intros sys Hnn; [done|].
  simpl. apply IH. clear IH.
  destruct (handle_db_effect sys r)
    as [->|(u & a & id & old & row & delta & bal & _ & Hbal & Hle & -> & _)];
    [done|].
  intros k b Hk. simpl in Hk.
  apply lookup_insert_Some in Hk as [[<- <-]|[_ Hk]]; [|by eapply Hnn].
  destruct (Hnn _ _ Hbal). simpl. lia.
Qed.

Lemma requests_keep_nonNegative_witness :
  nonNegative
    (Handlers.db
       (Api.serve Examples.twoTraders
          [Api.PostOrder 1 10 Examples.sellOne;
           Api.PostOrder 2 11 Examples.buyOne;
           Api.DeleteOrder 1 10])).
Proof.
  apply requests_keep_nonNegative.
  intros k bal Hk. unfold Examples.twoTraders in Hk. simpl in Hk.
  apply lookup_insert_Some in Hk as [[_ <-]|[_ Hk]]; [simpl; lia|].
  apply lookup_singleton_Some in Hk as [_ <-]. simpl. lia.
Defined.



(** ** Quantities in the matching loop *)

Import Market.

Lemma sumOver_cons h p s : sumOver h (p :: s) = Quantity (h p) + sumOver h s.
Proof. done. Qed.

Lemma sumOver_app h s1 s2 : sumOver h (s1 ++ s2) = sumOver h s1 + sumOver h s2.
Proof.
  induction s1 as [|p s1 IH]; [unfold sumOver; simpl; lia|].
  simpl. rewrite !sumOver_cons, IH. lia.
Qed.

Lemma sumOver_ext (h h' : nat → Order) s :
  (∀ q, q ∈ s → Quantity (h' q) = Quantity (h q)) → sumOver h' s = sumOver h s.
Proof.
  induction s as [|p s IH]; intros Hq; [done|].
  rewrite !sumOver_cons, IH, Hq; [done|by left|].
  intros q Hin. apply Hq. by right.
Qed.

Lemma sumOver_Permutation h s1 s2 : s1 ≡ₚ s2 → sumOver h s1 = sumOver h s2.
Proof.
  induction 1 as [|x l l' _ IH|x y l|l l' l'' _ IH1 _ IH2];
    rewrite ?sumOver_cons; lia.
Qed.

Lemma sumQty_app ts1 ts2 : sumQty (ts1 ++ ts2) = sumQty ts1 + sumQty ts2.
Proof.
  induction ts1 as [|t ts1 IH]; [unfold sumQty; simpl; lia|].
  simpl. rewrite !sumQty_cons, IH. lia.
Qed.

(** The quantities around a matching loop that runs over resting orders with
    quantity left, none of them the incoming order.  [sgn] is [1] for a loop
    over the asks and [-1] for a loop over the bids. *)
Lemma matchLoop_quantities (sgn : Z) crosses sym inc rest :
  (∀ o r, crosses o r = bool_decide (sgn * Price r <= sgn * Price o)) →
  ∀ h orders kept trades h' orders' side' trades',
  NoDup rest → inc ∉ rest →
  (∀ q, q ∈ rest → 0 < Quantity (h q)) →
  matchLoop crosses sym inc h orders kept rest trades = (h', orders', side', trades') →
  ∃ new stay,
    trades' = trades ++ new
    ∧ side' = kept ++ stay
    ∧ stay `sublist_of` rest
    ∧ Quantity (h' inc) = Quantity (h inc) - sumQty new
    ∧ (0 <= Quantity (h inc) → 0 <= Quantity (h' inc))
    ∧ sumOver h rest = sumOver h' stay + sumQty new
    ∧ (∀ q, q ∈ stay → 0 < Quantity (h' q))
    ∧ Forall (fun t => 0 < TQuantity t
                       ∧ sgn * TPrice t <= sgn * Price (h inc)) new
    ∧ (∀ q, q ≠ inc → q ∉ rest → h' q = h q).
Proof.
  intros Hcross.
  induction rest as [|r rest IH];
    intros h orders kept trades h' orders' side' trades' Hnd Hinc Hpos Hrun;
    simpl in Hrun.
  { simplify_eq. exists [], []. rewrite !app_nil_r.
    split_and!; try done; unfold sumQty; simpl; lia. }
  assert (∃ new stay,
    trades = trades ++ new ∧ kept ++ r :: rest = kept ++ stay
    ∧ stay `sublist_of` r :: rest
    ∧ Quantity (h inc) = Quantity (h inc) - sumQty new
    ∧ (0 <= Quantity (h inc) → 0 <= Quantity (h inc))
    ∧ sumOver h (r :: rest) = sumOver h stay + sumQty new
    ∧ (∀ q, q ∈ stay → 0 < Quantity (h q))
    ∧ Forall (fun t => 0 < TQuantity t
                       ∧ sgn * TPrice t <= sgn * Price (h inc)) new
    ∧ (∀ q, q ≠ inc → q ∉ r :: rest → h q = h q)) as Hstop.
  { exists [], (r :: rest). rewrite app_nil_r. unfold sumQty. simpl.
    split_and!; try done; lia. }
  case_bool_decide as Hqty; [|by simplify_eq].
  destruct (crosses (h inc) (h r)) eqn:Hc; [|by simplify_eq].
  clear Hstop.
  rewrite Hcross in Hc. apply bool_decide_eq_true in Hc.
  apply NoDup_cons in Hnd as [Hr Hnd].
  apply not_elem_of_cons in Hinc as [Hne Hinc].
  assert (0 < Quantity (h r)) as Hqr by (apply Hpos; by left).
  set (m := Z.min (Quantity (h inc)) (Quantity (h r))) in *.
  set (h1 := <[inc := sub_Quantity (h inc) m]> h) in *.
  set (h2 := <[r := sub_Quantity (h1 r) m]> h1) in *.
  set (trade := {| TakerOrderID := ID (h inc); MakerOrderID := ID (h r);
                   TSymbol := sym; TPrice := Price (h r); TQuantity := m |}) in *.
  assert (h2 inc = sub_Quantity (h inc) m) as Hinc2.
  { subst h2 h1. rewrite fn_lookup_insert_ne by done. by rewrite fn_lookup_insert. }
  assert (h2 r = sub_Quantity (h r) m) as Hr2.
  { subst h2 h1. rewrite fn_lookup_insert. by rewrite fn_lookup_insert_ne. }
  assert (∀ q, q ≠ inc → q ≠ r → h2 q = h q) as Hother.
  { intros q ??. subst h2 h1. by apply match_step_other. }
  assert (∀ q, q ∈ rest → h2 q = h q) as Hrest.
  { intros q Hq. apply Hother; intros ->; done. }
  assert (0 < m) as Hm by (subst m; lia).
  assert (∃ kept', matchLoop crosses sym inc h2
            (if bool_decide (Quantity (h2 r) = 0)
             then delete (ID (h2 r)) orders else orders)
            kept' rest (trades ++ [trade]) = (h', orders', side', trades')
          ∧ kept' = if bool_decide (Quantity (h2 r) = 0) then kept else kept ++ [r])
    as (kept' & Hrun' & Hkept').
  { case_bool_decide; eauto. }
  apply IH in Hrun'
    as (new & stay & -> & -> & Hsub & Hq' & Hnn & Hsum & Hpos' & Htr & Hoth);
    [|done|done|intros q Hq; rewrite Hrest by done; apply Hpos; by right].
  rewrite Hinc2 in Hq', Hnn, Htr. simpl in Hq', Hnn, Htr.
  rewrite (sumOver_ext h h2) in Hsum by (intros q Hq; by rewrite Hrest).
  assert (h' r = h2 r) as Hr' by (by apply Hoth).
  rewrite Hr2 in Hr'.
  assert (Forall (fun t => 0 < TQuantity t
                           ∧ sgn * TPrice t <= sgn * Price (h inc))
                 (trade :: new)) as Htrades.
  { constructor; [|done]. subst trade. simpl. done. }
  rewrite Hr2 in Hkept'. simpl in Hkept'.
  case_bool_decide as Hfilled; subst kept'.
  - exists (trade :: new), stay. split_and!; try done.
    + by rewrite <- app_assoc.
    + by apply sublist_cons.
    + rewrite sumQty_cons. simpl. lia.
    + intros _. subst m. lia.
    + rewrite sumOver_cons, sumQty_cons, Hsum. simpl. lia.
    + intros q Hq Hnotin. apply not_elem_of_cons in Hnotin as [? ?].
      rewrite Hoth by done. by apply Hother.
  - exists (trade :: new), (r :: stay). split_and!; try done.
    + by rewrite <- app_assoc.
    + by rewrite <- app_assoc.
    + by apply sublist_skip.
    + rewrite sumQty_cons. simpl. lia.
    + intros _. subst m. lia.
    + rewrite !sumOver_cons, sumQty_cons, Hsum, Hr'. simpl. lia.
    + intros q Hq. apply elem_of_cons in Hq as [->|Hq]; [|by apply Hpos'].
      rewrite Hr'. simpl. subst m. lia.
    + intros q Hq Hnotin. apply not_elem_of_cons in Hnotin as [? ?].
      rewrite Hoth by done. by apply Hother.
Qed.

Lemma matchLoop_exhausted crosses sym inc h orders kept rest trades :
  Quantity (h inc) <= 0 →
  matchLoop crosses sym inc h orders kept rest trades
  = (h, orders, kept ++ rest, trades).
Proof.
  intros Hq. destruct rest as [|r rest]; simpl; [by rewrite app_nil_r|].
  by rewrite bool_decide_eq_false_2 by lia.
Qed.

(** When the incoming order has quantity left after the loop, the loop has
    taken out every resting order that it crosses: what stays on the side
    is beyond its limit. *)
Lemma matchLoop_uncrossed (sgn : Z) crosses sym inc rest :
  (∀ o r, crosses o r = bool_decide (sgn * Price r <= sgn * Price o)) →
  ∀ h orders kept trades h' orders' side' trades',
  NoDup rest → inc ∉ rest →
  (∀ q, q ∈ rest → 0 < Quantity (h q)) →
  StronglySorted (fun p q => sgn * Price (h p) <= sgn * Price (h q)) rest →
  matchLoop crosses sym inc h orders kept rest trades = (h', orders', side', trades') →
  0 < Quantity (h' inc) →
  ∃ stay, side' = kept ++ stay
    ∧ ∀ q, q ∈ stay → sgn * Price (h inc) < sgn * Price (h q).
Proof.
  intros Hcross.
  induction rest as [|r rest IH];
    intros h orders kept trades h' orders' side' trades' Hnd Hinc Hpos Hsorted Hrun Hleft;
    simpl in Hrun.
  { simplify_eq. exists []. rewrite app_nil_r. split; [done|].
    intros q Hq. by apply elem_of_nil in Hq. }
  case_bool_decide as Hqty; [|simplify_eq; lia].
  apply StronglySorted_cons in Hsorted as [Hhead Hsorted].
  destruct (crosses (h inc) (h r)) eqn:Hc.
  - rewrite Hcross in Hc. apply bool_decide_eq_true in Hc.
    apply NoDup_cons in Hnd as [Hr Hnd].
    apply not_elem_of_cons in Hinc as [Hne Hinc].
    assert (0 < Quantity (h r)) as Hqr by (apply Hpos; by left).
    set (m := Z.min (Quantity (h inc)) (Quantity (h r))) in *.
    set (h1 := <[inc := sub_Quantity (h inc) m]> h) in *.
    set (h2 := <[r := sub_Quantity (h1 r) m]> h1) in *.
    assert (h2 inc = sub_Quantity (h inc) m) as Hinc2.
    { subst h2 h1. rewrite fn_lookup_insert_ne by done. by rewrite fn_lookup_insert. }
    assert (h2 r = sub_Quantity (h r) m) as Hr2.
    { subst h2 h1. rewrite fn_lookup_insert. by rewrite fn_lookup_insert_ne. }
    assert (∀ q, q ∈ rest → h2 q = h q) as Hrest.
    { intros q Hq. subst h2 h1. apply match_step_other; intros ->; done. }
    assert (∀ q, Price (h2 q) = Price (h q)) as Hprice.
    { intros q. subst h2 h1. apply match_step_static. }
    rewrite Hr2 in Hrun. simpl in Hrun.
    case_bool_decide as Hfilled.
    + apply IH in Hrun as (stay & -> & Hstay); try done.
      * exists stay. split; [done|]. intros q Hq.
        specialize (Hstay q Hq). by rewrite !Hprice in Hstay.
      * intros q Hq. rewrite Hrest by done. apply Hpos. by right.
      * eapply StronglySorted_rel_ext; [|exact Hsorted]. simpl.
        intros x y Hx Hy. by rewrite !Hprice.
    + (* the resting order is not used up: the incoming order is *)
      rewrite matchLoop_exhausted in Hrun.
      * simplify_eq. rewrite Hinc2 in Hleft. simpl in Hleft. subst m. lia.
      * rewrite Hinc2. simpl. subst m. lia.
  - simplify_eq. rewrite Hcross in Hc. apply bool_decide_eq_false in Hc.
    exists (r :: rest). split; [done|]. intros q Hq.
    apply elem_of_cons in Hq as [->|Hq]; [lia|].
    eapply Forall_forall in Hhead; [|done]. simpl in Hhead. lia.
Qed.

Lemma StronglySorted_lookup_lt {A} (R : relation A) (l : list A) i j x y :
  StronglySorted R l → (i < j)%nat → l !! i = Some x → l !! j = Some y → R x y.
Proof.
  intros Hs Hij Hi Hj.
  rewrite <- (take_drop (S i) l) in Hs.
  eapply (StronglySorted_app_1_elem_of R _ _ x y); [done| |].
  - apply elem_of_take. exists i. split; [done|lia].
  - apply list_elem_of_lookup. exists (j - S i)%nat.
    rewrite lookup_drop. by replace (S i + (j - S i))%nat with j by lia.
Qed.

Lemma StronglySorted_from_lookup {A} (R : relation A) (l : list A) :
  (∀ i j x y, (i < j)%nat → l !! i = Some x → l !! j = Some y → R x y) →
  StronglySorted R l.
Proof.
  induction l as [|x l IH]; intros Hl; constructor.
  - apply IH. intros i j y z Hij Hi Hj. by apply (Hl (S i) (S j)); [lia| |].
  - apply Forall_forall. intros y Hy.
    apply list_elem_of_lookup in Hy as [j Hj].
    by apply (Hl 0%nat (S j)); [lia| |].
Qed.

(** One matching loop as [matchOrder] runs it, over the side [opp] opposite
    to the incoming order, with [own] the side of the incoming order. *)
Lemma match_side_facts (sgn : Z) crosses sym n h orders own opp
    h' orders' side' trades' :
  (∀ o r, crosses o r = bool_decide (sgn * Price r <= sgn * Price o)) →
  n ∉ own ++ opp → NoDup (own ++ opp) →
  (∀ q, q ∈ own ++ opp → 0 < Quantity (h q)) →
  StronglySorted (fun p q => sgn * Price (h p) <= sgn * Price (h q)) opp →
  matchLoop crosses sym n h orders [] opp [] = (h', orders', side', trades') →
  side' `sublist_of` opp
  ∧ (∀ q, q ∈ own ++ side' → 0 < Quantity (h' q))
  ∧ Quantity (h' n) = Quantity (h n) - sumQty trades'
  ∧ (0 <= Quantity (h n) → 0 <= Quantity (h' n))
  ∧ sumOver h' own = sumOver h own
  ∧ sumOver h' side' = sumOver h opp - sumQty trades'
  ∧ Forall (fun t => 0 < TQuantity t
                     ∧ sgn * TPrice t <= sgn * Price (h n)) trades'
  ∧ (0 < Quantity (h' n) →
     ∀ q, q ∈ side' → sgn * Price (h n) < sgn * Price (h q))
  ∧ (∀ q, static (h' q) (h q))
  ∧ (∀ q, q ≠ n → q ∉ opp → h' q = h q).
Proof.
  intros Hcross Hfresh Hnd Hpos Hsorted Hrun.
  apply not_elem_of_app in Hfresh as [Hfo Hfp].
  apply NoDup_app in Hnd as (Hndo & Hdisj & Hndp).
  pose proof (matchLoop_effect _ _ _ _ _ _ _ _ _ _ _ _ Hrun)
    as (_ & _ & _ & _ & _ & _ & Hst & _).
  pose proof (matchLoop_quantities sgn _ _ _ _ Hcross _ _ _ _ _ _ _ _
                Hndp Hfp (fun q Hq => Hpos q (proj2 (elem_of_app _ _ _) (or_intror Hq)))
                Hrun)
    as (new & stay & -> & -> & Hsub & Hq & Hnn & Hsum & Hpos' & Htr & Hoth).
  simpl in *.
  assert (∀ q, q ∈ own → h' q = h q) as Hown.
  { intros q Hq'. apply Hoth; [by intros ->|]. by apply Hdisj. }
  split_and!; try done.
  - intros q Hin. apply elem_of_app in Hin as [Hin|Hin]; [|by apply Hpos'].
    rewrite Hown by done. apply Hpos, elem_of_app. by left.
  - apply sumOver_ext. intros q Hin. by rewrite Hown.
  - lia.
  - intros Hleft.
    destruct (matchLoop_uncrossed sgn _ _ _ _ Hcross _ _ _ _ _ _ _ _
                Hndp Hfp (fun q Hq => Hpos q (proj2 (elem_of_app _ _ _) (or_intror Hq)))
                Hsorted Hrun Hleft) as (stay' & Heq & Hstay).
    simpl in Heq. by subst stay'.
Qed.

Lemma insertAt_elem_of i (x q : nat) s : q ∈ insertAt i x s ↔ q = x ∨ q ∈ s.
Proof. rewrite (insertAt_Permutation i x s). apply elem_of_cons. Qed.

Lemma sumOver_insertAt h i x s :
  sumOver h (insertAt i x s) = Quantity (h x) + sumOver h s.
Proof. by rewrite (sumOver_Permutation _ _ _ (insertAt_Permutation i x s)). Qed.

(** What [AddOrder] of an order object at a new address does to the
    quantities and to the spread of a book in price order. *)
Lemma AddOrder_market n st r st' :
  wf n st → priceSorted st → positive st → uncrossed st →
  AddOrder n st = (r, st') →
  positive st' ∧ uncrossed st'
  ∧ ∀ trades, r = Ok trades →
      Quantity (heap st' n) = Quantity (heap st n) - sumQty trades
      ∧ (0 <= Quantity (heap st n) → 0 <= Quantity (heap st' n))
      ∧ restingQty st'
        = restingQty st - sumQty trades + Z.max 0 (Quantity (heap st' n))
      ∧ Forall (fun t => 0 < TQuantity t
                  ∧ if bool_decide (Side (heap st n) = "buy")
                    then TPrice t <= Price (heap st n)
                    else Price (heap st n) <= TPrice t) trades.
Proof.
  intros Hwf [Hsb Hsa] Hpos Hunc Hrun.
  assert (n ∉ Bids (book st) ++ Asks (book st)) as Hfresh.
  { intros Hin. destruct Hwf as [H1 H2 _ _ _ _ _].
    apply elem_of_app in Hin as [Hin|Hin];
      [eapply Forall_forall in H1|eapply Forall_forall in H2]; eauto; lia. }
  pose proof (wf_nodup _ _ Hwf) as Hnd.
  apply AddOrder_cases in Hrun
    as [[He ->]|(trades & st2 & -> & Hmatch & Hend)].
  { split_and!; [done|done|]. by intros trades ->. }
  unfold matchOrder in Hmatch. simpl in Hmatch.
  case_bool_decide as Hside.
  - destruct (matchLoop _ _ _ _ _ _ _ _)
      as [[[h' orders'] side'] trades'] eqn:Hloop.
    simplify_eq.
    apply (match_side_facts 1 _ _ _ _ _ (Bids (book st))) in Hloop
      as (Hsub & Hpos2 & Hq & Hnn & Hown & Hopp & Htr & Hlim & Hst & Hoth);
      [|intros o r'; unfold crossesAsk; apply bool_decide_ext; lia
       |done|done|done
       |eapply StronglySorted_rel_ext; [|exact Hsa]; simpl; intros; lia].
    assert (∀ b a, b ∈ Bids (book st) → a ∈ side' →
                   Price (h' b) < Price (h' a)) as Hunc2.
    { intros b a Hb Ha.
      destruct (Hst b) as (_ & _ & _ & _ & _ & -> & _).
      destruct (Hst a) as (_ & _ & _ & _ & _ & -> & _).
      apply Hunc; [done|]. by eapply sublist_subseteq. }
    assert (Forall (fun t => 0 < TQuantity t
                       ∧ TPrice t <= Price (heap st n)) trades) as Htr'.
    { eapply Forall_impl; [exact Htr|]. simpl. intros t [? ?]. split; lia. }
    simpl in Hend.
    destruct Hend as [(Hleft & _ & ->)|[(_ & Hs2 & _)|(Hdone & ->)]]; simpl.
    + split_and!.
      * intros p Hp. simpl in Hp.
        apply elem_of_app in Hp as [Hp|Hp].
        -- apply insertAt_elem_of in Hp as [->|Hp]; [done|].
           apply Hpos2, elem_of_app. by left.
        -- apply Hpos2, elem_of_app. by right.
      * intros b a Hb Ha. simpl in *.
        apply insertAt_elem_of in Hb as [->|Hb]; [|by apply Hunc2].
        destruct (Hst n) as (_ & _ & _ & _ & _ & -> & _).
        destruct (Hst a) as (_ & _ & _ & _ & _ & -> & _).
        specialize (Hlim Hleft a Ha). lia.
      * intros ? [= <-]. split_and!; [done|done| |done].
        unfold restingQty. simpl. rewrite sumOver_insertAt, Hown, Hopp. lia.
    + destruct (Hst n) as (_ & _ & _ & _ & Hs & _). congruence.
    + split_and!.
      * intros p Hp. by apply Hpos2.
      * intros b a Hb Ha. by apply Hunc2.
      * intros ? [= <-]. split_and!; [done|done| |done].
        unfold restingQty. simpl. rewrite Hown, Hopp. lia.
  - destruct (matchLoop _ _ _ _ _ _ _ _)
      as [[[h' orders'] side'] trades'] eqn:Hloop.
    simplify_eq.
    apply (match_side_facts (-1) _ _ _ _ _ (Asks (book st))) in Hloop
      as (Hsub & Hpos2 & Hq & Hnn & Hown & Hopp & Htr & Hlim & Hst & Hoth);
      [|intros o r'; unfold crossesBid; apply bool_decide_ext; lia
       |intros Hin; apply Hfresh; apply elem_of_app in Hin as [?|?];
          apply elem_of_app; auto
       |by rewrite (comm app)
       |intros q Hin; apply Hpos; apply elem_of_app in Hin as [?|?];
          apply elem_of_app; auto
       |eapply StronglySorted_rel_ext; [|exact Hsb]; simpl; intros; lia].
    assert (∀ b a, b ∈ side' → a ∈ Asks (book st) →
                   Price (h' b) < Price (h' a)) as Hunc2.
    { intros b a Hb Ha.
      destruct (Hst b) as (_ & _ & _ & _ & _ & -> & _).
      destruct (Hst a) as (_ & _ & _ & _ & _ & -> & _).
      apply Hunc; [|done]. by eapply sublist_subseteq. }
    assert (Forall (fun t => 0 < TQuantity t
                       ∧ Price (heap st n) <= TPrice t) trades) as Htr'.
    { eapply Forall_impl; [exact Htr|]. simpl. intros t [? ?]. split; lia. }
    simpl in Hend.
    destruct Hend as [(_ & Hs2 & _)|[(Hleft & _ & ->)|(Hdone & ->)]]; simpl.
    + destruct (Hst n) as (_ & _ & _ & _ & Hs & _). congruence.
    + split_and!.
      * intros p Hp. simpl in Hp.
        apply elem_of_app in Hp as [Hp|Hp].
        -- apply Hpos2, elem_of_app. by right.
        -- apply insertAt_elem_of in Hp as [->|Hp]; [done|].
           apply Hpos2, elem_of_app. by left.
      * intros b a Hb Ha. simpl in *.
        apply insertAt_elem_of in Ha as [->|Ha]; [|by apply Hunc2].
        destruct (Hst n) as (_ & _ & _ & _ & _ & -> & _).
        destruct (Hst b) as (_ & _ & _ & _ & _ & -> & _).
        specialize (Hlim Hleft b Hb). lia.
      * intros ? [= <-]. split_and!; [done|done| |done].
        unfold restingQty. simpl. rewrite sumOver_insertAt, Hown, Hopp. lia.
    + split_and!.
      * intros p Hp. apply Hpos2. apply elem_of_app in Hp as [?|?];
          apply elem_of_app; auto.
      * intros b a Hb Ha. by apply Hunc2.
      * intros ? [= <-]. split_and!; [done|done| |done].
        unfold restingQty. simpl. rewrite Hown, Hopp. lia.
Qed.

(** ** Quantities and the spread in every book reached from the empty one *)

Lemma CancelOrder_market n st orderID :
  wf n st → positive st → uncrossed st →
  positive (Orderbook.CancelOrder orderID st).2
  ∧ uncrossed (Orderbook.CancelOrder orderID st).2.
Proof.
  intros Hwf Hpos Hunc.
  destruct (Orders (book st) !! orderID) as [order|] eqn:Hidx.
  - destruct (CancelOrder_wf _ _ _ _ Hwf Hidx)
      as (st' & -> & Hheap & _ & Hb & Ha & _).
    simpl. split.
    + intros p Hp. rewrite Hheap. apply Hpos.
      rewrite Hb, Ha in Hp.
      apply elem_of_app in Hp as [Hp|Hp];
        apply list_elem_of_filter in Hp as [_ Hp]; apply elem_of_app; auto.
    + intros b a Hin_b Hin_a. rewrite Hheap.
      rewrite Hb in Hin_b. rewrite Ha in Hin_a.
      apply list_elem_of_filter in Hin_b as [_ Hin_b].
      apply list_elem_of_filter in Hin_a as [_ Hin_a].
      by apply Hunc.
  - unfold Orderbook.CancelOrder. by rewrite Hidx.
Qed.

Lemma alloc_resting n st o :
  wf n st →
  ∀ q, q ∈ Bids (book st) ++ Asks (book st) → (<[n := o]> (heap st)) q = heap st q.
Proof.
  intros Hwf q Hq. rewrite fn_lookup_insert_ne; [done|].
  intros <-. destruct Hwf as [H1 H2 _ _ _ _ _].
  apply elem_of_app in Hq as [Hq|Hq];
    [eapply Forall_forall in H1|eapply Forall_forall in H2]; eauto; lia.
Qed.

(** [submit] on a book in price order, with positive resting quantities and
    no bid at or above an ask. *)
Lemma submit_market o ex r ex' :
  wf (next ex) (state ex) → priceSorted (state ex) →
  positive (state ex) → uncrossed (state ex) →
  submit o ex = (r, ex') →
  positive (state ex') ∧ uncrossed (state ex')
  ∧ ∀ trades, r = Ok trades →
      Quantity (heap (state ex') (next ex)) = Quantity o - sumQty trades
      ∧ (0 <= Quantity o → 0 <= Quantity (heap (state ex') (next ex)))
      ∧ restingQty (state ex')
        = restingQty (state ex) - sumQty trades
          + Z.max 0 (Quantity (heap (state ex') (next ex)))
      ∧ Forall (fun t => 0 < TQuantity t
                  ∧ if bool_decide (Side o = "buy")
                    then TPrice t <= Price o
                    else Price o <= TPrice t) trades.
Proof.
  intros Hwf Hsorted Hpos Hunc Hsub. unfold submit in Hsub.
  destruct (AddOrder _ _) as [r0 st'] eqn:Hadd. simplify_eq. simpl.
  pose proof (alloc_resting _ _ o Hwf) as Hold.
  assert (restingQty {| heap := <[next ex := o]> (heap (state ex));
                        book := book (state ex) |}
          = restingQty (state ex)) as Hrest.
  { unfold restingQty. simpl. f_equal; apply sumOver_ext; intros q Hq;
      rewrite Hold; try done; apply elem_of_app; auto. }
  apply (AddOrder_market (next ex)) in Hadd.
  - simpl in Hadd. rewrite fn_lookup_insert, Hrest in Hadd. done.
  - by apply wf_alloc.
  - apply (priceSorted_shrink (state ex)); simpl; try done.
    intros q Hq. by rewrite Hold.
  - intros p Hp. simpl in *. rewrite Hold by done. by apply Hpos.
  - intros b a Hb Ha. simpl in *.
    rewrite !Hold by (apply elem_of_app; auto). by apply Hunc.
Qed.

Lemma steps_market ops : ∀ ex os,
  wf (next ex) (state ex) → tracks os ex → priceSorted (state ex) →
  positive (state ex) → uncrossed (state ex) →
  positive (state (foldl step ex ops)) ∧ uncrossed (state (foldl step ex ops)).
Proof.
  induction ops as [|op ops IH]; intros ex os Hwf Htr Hsorted Hpos Hunc; [done|].
  change (foldl step ex (op :: ops)) with (foldl step (step ex op) ops).
  destruct (step_wf ex op os Hwf Htr) as [Hwf' Htr'].
  assert (priceSorted (state (step ex op))) as Hsorted'
    by apply (steps_sorted [op] ex os Hwf Htr Hsorted).
  assert (positive (state (step ex op)) ∧ uncrossed (state (step ex op)))
    as [Hpos' Hunc'].
  { destruct op as [o|orderID]; simpl.
    - destruct (submit o ex) as [r ex'] eqn:Hsub.
      by destruct (submit_market _ _ _ _ Hwf Hsorted Hpos Hunc Hsub) as (? & ? & _).
    - unfold cancel.
      pose proof (CancelOrder_market _ _ orderID Hwf Hpos Hunc) as Hc.
      by destruct (Orderbook.CancelOrder orderID (state ex)). }
  by apply (IH _ _ Hwf' Htr').
Qed.

Lemma run_market sym ops :
  positive (state (run sym ops)) ∧ uncrossed (state (run sym ops)).
Proof.
  apply (steps_market ops (newExchange sym) []).
  - apply (run_wf sym []).
  - apply (run_wf sym []).
  - split; constructor.
  - intros p Hp. by apply elem_of_nil in Hp.
  - intros b a Hb. by apply elem_of_nil in Hb.
Qed.

(** X13: Whatever orders are added and cancelled, every order that rests in the
    book has a positive remaining quantity: an order filled to zero, or
    submitted with a quantity that is not positive, never rests. *)
Theorem resting_quantities_positive sym ops p :
  let st := state (run sym ops) in
  p ∈ Bids (book st) ++ Asks (book st) → 0 < Quantity (heap st p).
Proof. intros st. apply (run_market sym ops). Qed.

(** After two sells at 100 and 101, both rest with their quantities. *)
Lemma resting_quantities_positive_witness :
  0 < Quantity (heap (state (run "BTC-USD"
                               [OpAdd (limitOrder 1 "sell" 100 2);
                                OpAdd (limitOrder 2 "sell" 101 3)])) 1%nat).
Proof.
  refine (resting_quantities_positive "BTC-USD"
            [OpAdd (limitOrder 1 "sell" 100 2);
             OpAdd (limitOrder 2 "sell" 101 3)] 1%nat _).
  vm_compute. repeat constructor.
Defined.

(** X14: Whatever orders are added and cancelled, the book is never crossed: every
    resting bid is priced strictly below every resting ask. *)
Theorem book_never_crossed sym ops b a :
  let st := state (run sym ops) in
  b ∈ Bids (book st) → a ∈ Asks (book st) →
  Price (heap st b) < Price (heap st a).
Proof. intros st. apply (run_market sym ops). Qed.

(** A bid at 99 and an ask at 100 rest side by side. *)
Lemma book_never_crossed_witness :
  let st := state (run "BTC-USD" [OpAdd (limitOrder 1 "buy" 99 2);
                                  OpAdd (limitOrder 2 "sell" 100 3)]) in
  Price (heap st 0%nat) < Price (heap st 1%nat).
Proof.
  refine (book_never_crossed "BTC-USD"
            [OpAdd (limitOrder 1 "buy" 99 2);
             OpAdd (limitOrder 2 "sell" 100 3)] 0%nat 1%nat _ _).
  - vm_compute. repeat constructor.
  - vm_compute. repeat constructor.
Defined.



(** X16: Every trade that [AddOrder] returns has a positive quantity and a price
    within the limit of the incoming order (at most the limit of a buy, at
    least the limit of a sell), and the trades come best price first: the
    prices never fall along the trades of a buy and never rise along the
    trades of a sell. *)
Theorem trades_within_limit_best_first sym ops o trades ex' :
  let ex := run sym ops in
  submit o ex = (Ok trades, ex') →
  Forall (fun t => 0 < TQuantity t
            ∧ if bool_decide (Side o = "buy") then TPrice t <= Price o
              else Price o <= TPrice t) trades
  ∧ ∀ i j ti tj, (i < j)%nat → trades !! i = Some ti → trades !! j = Some tj →
      if bool_decide (Side o = "buy") then TPrice ti <= TPrice tj
      else TPrice tj <= TPrice ti.
Proof.
  intros ex Hsub. subst ex.
  destruct (run_wf sym ops) as [Hwf _].
  destruct (run_market sym ops) as [Hpos Hunc].
  pose proof (run_sorted sym ops) as Hsorted.
  destruct (submit_market _ _ _ _ Hwf Hsorted Hpos Hunc Hsub) as (_ & _ & Hq).
  destruct (Hq trades eq_refl) as (_ & _ & _ & Hlim).
  split; [done|]. clear Hq Hlim.
  set (ex := run sym ops) in *.
  intros i j ti tj Hij Hi Hj.
  unfold submit in Hsub.
  destruct (AddOrder _ _) as [res st'] eqn:Hadd. simplify_eq.
  pose proof (wf_nodup _ _ Hwf) as Hnd.
  apply NoDup_app in Hnd as (Hndb & _ & Hnda).
  pose proof (alloc_resting _ _ o Hwf) as Hold.
  assert (next ex ∉ Bids (book (state ex)) ++ Asks (book (state ex))) as Hfresh.
  { intros Hin. pose proof (Hold _ Hin) as Heq.
    destruct Hwf as [H1 H2 _ _ _ _ _].
    apply elem_of_app in Hin as [Hin|Hin];
      [eapply Forall_forall in H1|eapply Forall_forall in H2]; eauto; lia. }
  pose proof (λ H1 H2 H3, AddOrder_trades _ _ _ _ H1 H2 H3 Hadd) as Htr.
  specialize (Htr Hndb Hnda Hfresh).
  destruct (Htr _ _ Hi) as (ri & Hri & ->).
  destruct (Htr _ _ Hj) as (rj & Hrj & ->).
  simpl in *. rewrite fn_lookup_insert in Hri, Hrj.
  destruct Hsorted as [Hsb Hsa].
  case_bool_decide.
  - rewrite !Hold by (apply elem_of_app; right; by eapply list_elem_of_lookup_2).
    apply (StronglySorted_lookup_lt _ _ i j ri rj Hsa Hij Hri Hrj).
  - rewrite !Hold by (apply elem_of_app; left; by eapply list_elem_of_lookup_2).
    apply (StronglySorted_lookup_lt _ _ i j ri rj Hsb Hij Hri Hrj).
Qed.

(** Sells rest at 100 and 101; a buy of 3 at 101 takes the one at 100 first. *)
Lemma trades_within_limit_best_first_witness :
  let trades :=
    [ {| TakerOrderID := 3; MakerOrderID := 2; TSymbol := "BTC-USD";
         TPrice := 100; TQuantity := 2 |};
      {| TakerOrderID := 3; MakerOrderID := 1; TSymbol := "BTC-USD";
         TPrice := 101; TQuantity := 1 |} ] in
  Forall (fun t => 0 < TQuantity t ∧ TPrice t <= 101) trades
  ∧ ∀ i j ti tj, (i < j)%nat → trades !! i = Some ti → trades !! j = Some tj →
      TPrice ti <= TPrice tj.
Proof.
  refine (trades_within_limit_best_first "BTC-USD"
            [OpAdd (limitOrder 1 "sell" 101 2);
             OpAdd (limitOrder 2 "sell" 100 2)]
            (limitOrder 3 "buy" 101 3)
            [ {| TakerOrderID := 3; MakerOrderID := 2; TSymbol := "BTC-USD";
                 TPrice := 100; TQuantity := 2 |};
              {| TakerOrderID := 3; MakerOrderID := 1; TSymbol := "BTC-USD";
                 TPrice := 101; TQuantity := 1 |} ]
            (submit (limitOrder 3 "buy" 101 3)
                    (run "BTC-USD" [OpAdd (limitOrder 1 "sell" 101 2);
                                    OpAdd (limitOrder 2 "sell" 100 2)])).2 _).
  reflexivity.
Defined.

(** ** An order that does not trade, and is then cancelled *)

Lemma matchLoop_trades_extend crosses sym inc rest :
  ∀ h orders kept trades h' orders' side' trades',
  matchLoop crosses sym inc h orders kept rest trades = (h', orders', side', trades') →
  ∃ new, trades' = trades ++ new.
Proof.
  induction rest as [|r rest IH]; intros h orders kept trades h' orders' side' trades' Hrun;
    simpl in Hrun.
  { simplify_eq. exists []. by rewrite app_nil_r. }
  case_bool_decide; [|simplify_eq; exists []; by rewrite app_nil_r].
  destruct (crosses _ _); [|simplify_eq; exists []; by rewrite app_nil_r].
  case_bool_decide; apply IH in Hrun as [new ->];
    eexists; by rewrite <- app_assoc.
Qed.

(** A matching loop that returns no trade has changed nothing. *)
Lemma matchLoop_no_trade crosses sym inc h orders rest h' orders' side' :
  matchLoop crosses sym inc h orders [] rest [] = (h', orders', side', []) →
  h' = h ∧ orders' = orders ∧ side' = rest.
Proof.
  intros Hrun. destruct rest as [|r rest]; simpl in Hrun; [by simplify_eq|].
  case_bool_decide; [|by simplify_eq].
  destruct (crosses _ _); [|by simplify_eq].
  case_bool_decide; apply matchLoop_trades_extend in Hrun as [new Hnew];
    by destruct new.
Qed.

Lemma filter_insertAt i (n : nat) s :
  n ∉ s → filter (fun q => q ≠ n) (insertAt i n s) = s.
Proof.
  intros Hn. unfold insertAt.
  rewrite filter_app, filter_cons_False by (intros Hne; by apply Hne).
  rewrite <- filter_app, take_drop. by apply filter_other_id.
Qed.

Lemma AddOrder_no_trade n st st' :
  wf n st →
  AddOrder n st = (Ok [], st') →
  heap st' = heap st
  ∧ symbol (book st') = symbol (book st)
  ∧ Orders (book st) !! ID (heap st n) = None
  ∧ Orders (book st') = <[ID (heap st n) := n]> (Orders (book st))
  ∧ filter (fun q => q ≠ n) (Bids (book st')) = Bids (book st)
  ∧ filter (fun q => q ≠ n) (Asks (book st')) = Asks (book st).
Proof.
  intros Hwf Hrun.
  assert ((n ∉ Bids (book st)) ∧ (n ∉ Asks (book st))) as [Hfb Hfa].
  { destruct Hwf as [H1 H2 _ _ _ _ _]. split; intros Hin;
      [eapply Forall_forall in H1|eapply Forall_forall in H2]; eauto; lia. }
  unfold AddOrder in Hrun.
  repeat (case_bool_decide; [by simplify_eq|]).
  match goal with H : ¬ is_Some _ |- _ => apply eq_None_not_Some in H; rename H into Hnew end.
  destruct (matchOrder _ _) as [trades st2] eqn:Hmatch.
  assert (trades = []) as -> by (repeat case_bool_decide; by simplify_eq).
  assert (st2 = {| heap := heap st;
                   book := {| symbol := symbol (book st); Bids := Bids (book st);
                              Asks := Asks (book st);
                              Orders := <[ID (heap st n) := n]> (Orders (book st)) |} |})
    as ->.
  { unfold matchOrder in Hmatch. simpl in Hmatch.
    case_bool_decide;
      destruct (matchLoop _ _ _ _ _ _ _ _) as [[[h' orders'] side'] trades'] eqn:Hloop;
      simplify_eq;
      by apply matchLoop_no_trade in Hloop as (-> & -> & ->). }
  simpl in Hrun.
  repeat case_bool_decide; simplify_eq; simpl; split_and!; try done;
    first [ by apply filter_insertAt | by apply filter_other_id ].
Qed.

(** X17: An order that [AddOrder] accepts on a book reached from the empty one
    without a trade can be cancelled, and the cancellation gives back the
    book as it was before the order: the same symbol, the same bids and asks
    in the same places, the same id map.  The other order objects are as
    they were. *)
Theorem submit_cancel_round_trip sym ops o ex1 :
  let ex := run sym ops in
  submit o ex = (Ok [], ex1) →
  ∃ ex2, cancel (ID o) ex1 = (Ok (next ex), ex2)
    ∧ book (state ex2) = book (state ex)
    ∧ ∀ q, q ≠ next ex → heap (state ex2) q = heap (state ex) q.
Proof.
  intros ex Hsub. subst ex.
  destruct (run_wf sym ops) as [Hwf _].
  set (ex := run sym ops) in *.
  unfold submit in Hsub.
  destruct (AddOrder _ _) as [res st'] eqn:Hadd. simplify_eq.
  pose proof (wf_alloc _ _ o Hwf) as Hwf0.
  destruct (AddOrder_wf _ _ _ _ Hwf0 Hadd) as [Hwf1 _].
  destruct (AddOrder_no_trade _ _ _ Hwf0 Hadd)
    as (Hheap & Hsym & Hnone & Hidx & Hb & Ha).
  simpl in *. rewrite fn_lookup_insert in Hnone, Hidx.
  assert (Orders (book st') !! ID o = Some (next ex)) as Hfound
    by (by rewrite Hidx, lookup_insert_eq).
  destruct (CancelOrder_found _ _ _ Hfound)
    as (st2 & Hrun & Hheap2 & Hsym2 & Hidx2 & _).
  destruct (CancelOrder_wf _ _ _ _ Hwf1 Hfound)
    as (st2' & Hrun' & _ & _ & Hb2 & Ha2 & _).
  assert (st2' = st2) as -> by congruence.
  unfold cancel. simpl. rewrite Hrun. eexists. split; [done|]. simpl.
  split.
  - destruct (book st2) as [s2 b2 a2 o2]. simpl in *.
    destruct (book (state ex)) as [s0 b0 a0 o0]. simpl in *.
    f_equal; [congruence|congruence|congruence|].
    rewrite Hidx2, Hidx. by apply delete_insert_id.
  - intros q Hq. rewrite Hheap2, Hheap. by rewrite fn_lookup_insert_ne.
Qed.

(** A bid at 99 next to an ask at 100 does not trade; cancelling it leaves
    the ask alone in the book. *)
Lemma submit_cancel_round_trip_witness :
  let ex := run "BTC-USD" [OpAdd (limitOrder 1 "sell" 100 5)] in
  let ex1 := (submit (limitOrder 2 "buy" 99 3) ex).2 in
  ∃ ex2, cancel 2 ex1 = (Ok (next ex), ex2)
    ∧ book (state ex2) = book (state ex)
    ∧ ∀ q, q ≠ next ex → heap (state ex2) q = heap (state ex) q.
Proof.
  refine (submit_cancel_round_trip "BTC-USD"
            [OpAdd (limitOrder 1 "sell" 100 5)]
            (limitOrder 2 "buy" 99 3)
            (submit (limitOrder 2 "buy" 99 3)
                    (run "BTC-USD" [OpAdd (limitOrder 1 "sell" 100 5)])).2 _).
  reflexivity.
Defined.

(** ** The depth of a book *)






Lemma sumOver_positive (h : nat → Order) (l : list nat) :
  (∀ q, q ∈ l → 0 < Quantity (h q)) →
  0 <= sumOver h l ∧ (l ≠ [] → 0 < sumOver h l).
Proof.
  induction l as [|q l IH]; intros Hall; [by split|].
  rewrite sumOver_cons.
  pose proof (Hall q ltac:(left)) as Hq.
  destruct IH as [IH _]; [intros r Hr; apply Hall; by right|].
  split; intros; lia.
Qed.

Lemma qtyAt_positive (h : nat → Order) (side : list nat) (price : Z) :
  (∀ p, p ∈ side → 0 < Quantity (h p)) →
  (∃ p, p ∈ side ∧ Price (h p) = price) →
  0 < qtyAt h side price.
Proof.
  intros Hpos (p & Hp & Hprice).
  change (qtyAt h side price)
    with (sumOver h (filter (fun p => Price (h p) = price) side)).
  apply sumOver_positive.
  - intros q Hq. apply list_elem_of_filter in Hq as [_ Hq]. by apply Hpos.
  - intros Hnil.
    assert (p ∈ filter (fun p => Price (h p) = price) side) as Hin
      by (by apply list_elem_of_filter).
    rewrite Hnil in Hin. by apply elem_of_nil in Hin.
Qed.

(** X19: The depth of every book reached from the empty one shows a positive
    quantity at every level, and every bid level below every ask level: the
    best bid is below the best ask. *)
Theorem reachable_depth_positive_uncrossed sym ops :
  let d := GetDepth (state (run sym ops)) in
  (∀ l, l ∈ DBids d ++ DAsks d → 0 < LQuantity l)
  ∧ (∀ b a, b ∈ DBids d → a ∈ DAsks d → LPrice b < LPrice a).
Proof.
  intros d. subst d.
  destruct (run_market sym ops) as [Hpos Hunc].
  set (st := state (run sym ops)) in *.
  unfold GetDepth. simpl.
  pose proof (NoDup_fst_map_to_list (levelMap (heap st) (Bids (book st)))) as Hb.
  pose proof (NoDup_fst_map_to_list (levelMap (heap st) (Asks (book st)))) as Ha.
  apply sortDescending_spec in Hb as [_ Hbp].
  apply sortAscending_spec in Ha as [_ Hap].
  pose proof (side_levels (heap st) _ _ Hbp) as [Hb1 Hb2].
  pose proof (side_levels (heap st) _ _ Hap) as [Ha1 Ha2].
  simpl in *. split.
  - intros l Hl. apply elem_of_app in Hl as [Hl|Hl].
    + rewrite (Hb2 l Hl). apply qtyAt_positive.
      * intros p Hp. apply Hpos, elem_of_app. by left.
      * apply Hb1, list_elem_of_fmap. by exists l.
    + rewrite (Ha2 l Hl). apply qtyAt_positive.
      * intros p Hp. apply Hpos, elem_of_app. by right.
      * apply Ha1, list_elem_of_fmap. by exists l.
  - intros b a Hin_b Hin_a.
    destruct (proj1 (Hb1 (LPrice b))) as (p & Hp & <-);
      [apply list_elem_of_fmap; by exists b|].
    destruct (proj1 (Ha1 (LPrice a))) as (q & Hq & <-);
      [apply list_elem_of_fmap; by exists a|].
    by apply Hunc.
Qed.

(** ** The books of the server under the order routes *)

Import Server.

Lemma AddOrder_resting n st r st' :
  AddOrder n st = (r, st') →
  symbol (book st') = symbol (book st)
  ∧ (∀ p, p ∈ Bids (book st') ++ Asks (book st') →
          p ∈ Bids (book st) ++ Asks (book st)
          ∨ (p = n ∧ Symbol (heap st n) = symbol (book st)))
  ∧ (∀ q, q ≠ n → q ∉ Bids (book st) ++ Asks (book st) →
          heap st' q = heap st q).
Proof.
  intros Hrun. unfold AddOrder in Hrun.
  case_bool_decide as Hsym; [simplify_eq; split_and!; auto|].
  repeat (case_bool_decide; [simplify_eq; split_and!; auto|]).
  destruct (matchOrder _ _) as [trades st2] eqn:Hmatch.
  assert (symbol (book st2) = symbol (book st)
          ∧ Bids (book st2) `sublist_of` Bids (book st)
          ∧ Asks (book st2) `sublist_of` Asks (book st)
          ∧ (∀ q, q ≠ n → q ∉ Bids (book st) ++ Asks (book st) →
                  heap st2 q = heap st q)) as (Hs2 & Hb2 & Ha2 & Hframe).
  { clear Hrun. unfold matchOrder in Hmatch. simpl in Hmatch.
    case_bool_decide;
      destruct (matchLoop _ _ _ _ _ _ _ _) as [[[h' orders'] side'] trades'] eqn:Hloop;
      simplify_eq;
      apply matchLoop_effect in Hloop
        as (removed & stay & -> & _ & Hsub & _ & _ & Hoth);
      simpl; (split_and!; [done|done|done|]);
      intros q Hq Hnotin; (apply Hoth; [done|]);
      intros Hin; apply Hnotin, elem_of_app; auto. }
  assert (∀ p, p ∈ Bids (book st2) ++ Asks (book st2) →
               p ∈ Bids (book st) ++ Asks (book st)) as Hold.
  { intros p Hp. apply elem_of_app in Hp as [Hp|Hp]; apply elem_of_app;
      [left|right]; by eapply sublist_subseteq. }
  repeat case_bool_decide; simplify_eq; simpl; (split_and!; [done| |done]).
  - intros p Hp. apply elem_of_app in Hp as [Hp|Hp].
    + apply insertAt_elem_of in Hp as [->|Hp]; [by right|].
      left. apply Hold, elem_of_app. by left.
    + left. apply Hold, elem_of_app. by right.
  - intros p Hp. apply elem_of_app in Hp as [Hp|Hp].
    + left. apply Hold, elem_of_app. by left.
    + apply insertAt_elem_of in Hp as [->|Hp]; [by right|].
      left. apply Hold, elem_of_app. by right.
  - intros p Hp. left. by apply Hold.
Qed.

Lemma bookOK_empty n h k : bookOK n h k (NewOrderBook k).
Proof.
  split; simpl; try done.
  - split; simpl;
      first [ done | constructor | intros p Hp; by apply elem_of_nil in Hp ].
  - split; constructor.
  - intros p Hp. by apply elem_of_nil in Hp.
  - intros b a Hb. by apply elem_of_nil in Hb.
  - intros p Hp. by apply elem_of_nil in Hp.
Qed.

(** A book keeps what holds of it when other order objects change. *)
Lemma bookOK_heap n n' h h' k bk :
  (n ≤ n')%nat →
  bookOK n h k bk →
  (∀ q, (q < n)%nat → static (h' q) (h q)) →
  (∀ q, q ∈ Bids bk ++ Asks bk → Quantity (h' q) = Quantity (h q)) →
  bookOK n' h' k bk.
Proof.
  intros Hle [Hsym Hwf Hsorted Hpos Hunc Hrest] Hst Hqty.
  pose proof Hwf as [H1 H2 H3 H4 H5 H6 H7]. simpl in *.
  assert (∀ p, p ∈ Bids bk ++ Asks bk → (p < n)%nat) as Hlt.
  { intros p Hp. apply elem_of_app in Hp as [Hp|Hp];
      [eapply Forall_forall in H1|eapply Forall_forall in H2]; eauto. }
  split; simpl; try done.
  - split; simpl.
    + eapply Forall_impl; [exact H1|]. simpl. lia.
    + eapply Forall_impl; [exact H2|]. simpl. lia.
    + done.
    + intros p Hp. destruct (Hst p (Hlt p Hp)) as (-> & _). by apply H4.
    + intros id p Hp. destruct (H5 id p Hp) as [Hid Hp'].
      destruct (Hst p Hp') as (-> & _). split; [done|lia].
    + intros p Hp.
      destruct (Hst p (Hlt p ltac:(apply elem_of_app; by left)))
        as (_ & _ & _ & _ & -> & _). by apply H6.
    + intros p Hp.
      destruct (Hst p (Hlt p ltac:(apply elem_of_app; by right)))
        as (_ & _ & _ & _ & -> & _). by apply H7.
  - apply (priceSorted_shrink {| heap := h; book := bk |}); simpl; try done.
    intros q Hq. by destruct (Hst q (Hlt q Hq)) as (_ & _ & _ & _ & _ & -> & _).
  - intros p Hp. simpl in *. rewrite Hqty by done. by apply Hpos.
  - intros b a Hb Ha. simpl in *.
    destruct (Hst b (Hlt b ltac:(apply elem_of_app; by left)))
      as (_ & _ & _ & _ & _ & -> & _).
    destruct (Hst a (Hlt a ltac:(apply elem_of_app; by right)))
      as (_ & _ & _ & _ & _ & -> & _).
    by apply Hunc.
  - intros p Hp. destruct (Hst p (Hlt p Hp)) as (_ & _ & -> & _). by apply Hrest.
Qed.

(** [AddOrder] of a new order object keeps what holds of the book. *)
Lemma AddOrder_bookOK n h o k bk r st' :
  bookOK n h k bk →
  AddOrder n {| heap := <[n := o]> h; book := bk |} = (r, st') →
  bookOK (S n) (heap st') k (book st')
  ∧ (∀ q, (q < n)%nat → static (heap st' q) (h q))
  ∧ (∀ q, (q < n)%nat → q ∉ Bids bk ++ Asks bk → heap st' q = h q).
Proof.
  intros [Hsym Hwf Hsorted Hpos Hunc Hrest] Hadd.
  pose proof (wf_alloc _ _ o Hwf) as Hwf0. simpl in Hwf0.
  pose proof (alloc_resting _ _ o Hwf) as Hold. simpl in Hold.
  assert (priceSorted {| heap := <[n := o]> h; book := bk |}) as Hsorted0.
  { apply (priceSorted_shrink {| heap := h; book := bk |}); simpl; try done.
    intros q Hq. by rewrite Hold. }
  assert (positive {| heap := <[n := o]> h; book := bk |}) as Hpos0.
  { intros p Hp. simpl in *. rewrite Hold by done. by apply Hpos. }
  assert (uncrossed {| heap := <[n := o]> h; book := bk |}) as Hunc0.
  { intros b a Hb Ha. simpl in *.
    rewrite !Hold by (apply elem_of_app; auto). by apply Hunc. }
  destruct (AddOrder_wf _ _ _ _ Hwf0 Hadd) as [Hwf' Hst].
  destruct (AddOrder_position _ _ _ _ Hwf0 Hsorted0 Hadd) as [Hsorted' _].
  destruct (AddOrder_market _ _ _ _ Hwf0 Hsorted0 Hpos0 Hunc0 Hadd)
    as (Hpos' & Hunc' & _).
  destruct (AddOrder_resting _ _ _ _ Hadd) as (Hsym' & Hin' & Hframe).
  simpl in *.
  assert (∀ q, (q < n)%nat → (<[n := o]> h) q = h q) as Hlow
    by (intros q Hq; rewrite fn_lookup_insert_ne; [done|lia]).
  split_and!.
  - destruct st' as [h' bk']. simpl in *. split; simpl; try done.
    + congruence.
    + intros p Hp. destruct (Hst p) as (_ & _ & -> & _).
      destruct (Hin' p Hp) as [Hp'|[-> Heq]]; [|congruence].
      rewrite Hold by done. by apply Hrest.
  - intros q Hq. specialize (Hst q). by rewrite Hlow in Hst.
  - intros q Hq Hnotin. rewrite Hframe; [by apply Hlow|lia|done].
Qed.

Lemma CancelOrder_bookOK n h k bk orderID :
  bookOK n h k bk →
  let st' := (Orderbook.CancelOrder orderID {| heap := h; book := bk |}).2 in
  heap st' = h ∧ bookOK n h k (book st').
Proof.
  intros Hok st'. subst st'.
  pose proof Hok as [Hsym Hwf Hsorted Hpos Hunc Hrest].
  pose proof (CancelOrder_sorted _ _ orderID Hwf Hsorted) as Hsorted'.
  pose proof (CancelOrder_market _ _ orderID Hwf Hpos Hunc) as [Hpos' Hunc'].
  destruct (Orders bk !! orderID) as [order|] eqn:Hidx.
  - destruct (CancelOrder_found {| heap := h; book := bk |} _ _ Hidx)
      as (st1 & Hrun1 & _ & Hsym1 & _).
    destruct (CancelOrder_wf _ _ _ _ Hwf Hidx)
      as (st2 & Hrun & Hheap & _ & Hb & Ha & Hwf').
    assert (st1 = st2) as -> by congruence.
    rewrite Hrun in *. simpl in *.
    destruct st2 as [h2 bk2]. simpl in *. subst h2.
    split; [done|]. split; simpl; try done.
    + congruence.
    + intros p Hp. apply Hrest. rewrite Hb, Ha in Hp.
      apply elem_of_app in Hp as [Hp|Hp];
        apply list_elem_of_filter in Hp as [_ Hp]; apply elem_of_app; auto.
  - unfold Orderbook.CancelOrder. simpl. rewrite Hidx. simpl. done.
Qed.

Lemma SubmitOrder_sound n h o bks tx e h' bks' tx' :
  (∀ k bk, bks !! k = Some bk → bookOK n h k bk) →
  Manager.SubmitOrder n (<[n := o]> h) bks tx = (e, h', bks', tx') →
  ∀ k bk, bks' !! k = Some bk → bookOK (S n) h' k bk.
Proof.
  intros Hall Hrun. unfold Manager.SubmitOrder, Manager.GetOrCreateBook in Hrun.
  rewrite fn_lookup_insert in Hrun.
  set (key := Strings.ToUpper (Symbol o)) in *.
  assert (∃ bk0 (r : result (list Trade)) st',
    bookOK n h key bk0
    ∧ (∀ p, p ∈ Bids bk0 ++ Asks bk0 → Symbol (h p) = key)
    ∧ AddOrder n {| heap := <[n := o]> h; book := bk0 |} = (r, st')
    ∧ h' = heap st'
    ∧ bks' = <[key := book st']> bks)
    as (bk0 & r & st' & Hok0 & Hrest0 & Hadd & -> & ->).
  { destruct (bks !! key) as [bk0|] eqn:Hbk.
    - destruct (AddOrder _ _) as [[trades|err] st'] eqn:Hadd; simplify_eq;
        exists bk0; do 2 eexists;
        (split_and!; [by apply Hall|by apply Hall|done|done|done]).
    - destruct (AddOrder _ _) as [[trades|err] st'] eqn:Hadd; simplify_eq;
        exists (NewOrderBook key); do 2 eexists;
        (split_and!;
         [ apply bookOK_empty | intros p Hp; by apply elem_of_nil in Hp
         | done | done | by rewrite insert_insert_eq ]). }
  destruct (AddOrder_bookOK _ _ _ _ _ _ _ Hok0 Hadd) as (Hok' & Hst & Hframe).
  intros k bk Hbk.
  destruct (decide (k = key)) as [->|Hne].
  - rewrite lookup_insert_eq in Hbk. by simplify_eq.
  - rewrite lookup_insert_ne in Hbk by done.
    pose proof (Hall _ _ Hbk) as Hok.
    apply (bookOK_heap n (S n) h); [lia|done|done|].
    intros q Hq.
    assert (q < n)%nat as Hlt.
    { destruct Hok as [_ [H1 H2 _ _ _ _ _] _ _ _ _]. simpl in *.
      apply elem_of_app in Hq as [Hq|Hq];
        [eapply Forall_forall in H1|eapply Forall_forall in H2]; eauto. }
    rewrite Hframe; [done|done|].
    intros Hin. apply Hrest0 in Hin.
    pose proof (ok_resting _ _ _ _ Hok q Hq). congruence.
Qed.

Lemma CancelOrder_sound n h order bks e h' bks' :
  (∀ k bk, bks !! k = Some bk → bookOK n h k bk) →
  Manager.CancelOrder order h bks = (e, h', bks') →
  h' = h ∧ ∀ k bk, bks' !! k = Some bk → bookOK n h k bk.
Proof.
  intros Hall Hrun. unfold Manager.CancelOrder, Manager.GetOrCreateBook in Hrun.
  set (key := Strings.ToUpper (Symbol order)) in *.
  assert (∃ bk0,
    bookOK n h key bk0
    ∧ h' = heap (Orderbook.CancelOrder (ID order) {| heap := h; book := bk0 |}).2
    ∧ bks' = <[key := book (Orderbook.CancelOrder (ID order)
                              {| heap := h; book := bk0 |}).2]> bks)
    as (bk0 & Hok0 & -> & ->).
  { destruct (bks !! key) as [bk0|] eqn:Hbk.
    - exists bk0. split; [by apply Hall|].
      destruct (Orderbook.CancelOrder _ _) as [[p|err] st']; by simplify_eq.
    - exists (NewOrderBook key). split; [apply bookOK_empty|].
      destruct (Orderbook.CancelOrder _ _) as [[p|err] st']; simplify_eq;
        by rewrite insert_insert_eq. }
  destruct (CancelOrder_bookOK _ _ _ _ (ID order) Hok0) as [Hheap Hok'].
  split; [done|]. intros k bk Hbk.
  destruct (decide (k = key)) as [->|Hne].
  - rewrite lookup_insert_eq in Hbk. by simplify_eq.
  - rewrite lookup_insert_ne in Hbk by done. by apply Hall.
Qed.

Lemma handle_sound sys r : sound sys → sound (Api.handle sys r).
Proof.
  intros Hsound. destruct r as [userID newID req|userID orderID|symbol]; simpl;
    cycle 2.
  { unfold Handlers.GetOrderBookDepth. case_bool_decide; [done|].
    unfold Manager.GetBookDepth, Manager.GetOrCreateBook.
    destruct (Handlers.books sys !! _) as [bk0|] eqn:Hbk0; simpl; [done|].
    intros k bk Hbk. simpl in *.
    apply lookup_insert_Some in Hbk as [[<- <-]|[_ Hbk]];
      [apply bookOK_empty|by apply Hsound]. }
  - unfold Handlers.CreateOrder.
    destruct (_ || _); [done|].
    destruct (Strings.Split _ _) as [|baseAsset [|quoteAsset [|? ?]]];
      try done.
    repeat (match goal with
            | |- context [if ?b && ?c then _ else _] =>
                destruct (b && c); [done|]
            | |- context [if ?b || ?c then _ else _] =>
                destruct (b || c); [done|]
            end).
    destruct (Handlers.lockFor _ _ _ _ _ _) as [[lockAsset lockAmount]|]; [|done].
    destruct (GetOrCreateBalanceInTx _ _ _) as [b0 tx1].
    destruct (LockFunds _ _ _ _) as [[err|] tx2]; [done|].
    destruct (Database.CreateOrder _ _ _) as [[[e|] order'] tx3]; [done|].
    destruct (Manager.SubmitOrder _ _ _ _) as [[[e h'] books'] db'] eqn:Hsub.
    simpl. intros k bk Hbk. simpl in *.
    by eapply (SubmitOrder_sound _ _ _ _ _ _ _ _ _ Hsound Hsub).
  - unfold Handlers.CancelOrder.
    destruct (Database.CancelOrder _ _ _) as [[e|originalOrder] tx1].
    { by destruct e. }
    destruct (_ !! 0%nat) as [baseAsset|]; [|done].
    destruct (_ !! 1%nat) as [quoteAsset|]; [|done].
    destruct (Handlers.unlockFor _ _ _) as [[unlockAsset unlockAmount]|]; [|done].
    destruct (UnlockFunds _ _ _ _) as [[e|] tx2]; [done|].
    destruct (Manager.CancelOrder _ _ _) as [[e h'] books'] eqn:Hc.
    simpl. intros k bk Hbk. simpl in *.
    destruct (CancelOrder_sound _ _ _ _ _ _ _ Hsound Hc) as [-> Hall].
    by apply Hall.
Qed.

(** X20: Whatever requests to place orders, to cancel orders and to read a book a
    server that starts without books serves, every book of its manager is
    stored under its own symbol and holds only orders of that symbol, each
    once and under its id, by descending price among the bids and by
    ascending price among the asks, each with a positive remaining quantity,
    and no bid at or above an ask. *)
Theorem server_books_sound (rs : list Api.Request) (sys : Handlers.System) :
  Handlers.books sys = ∅ → sound (Api.serve sys rs).
Proof.
  intros Hempty.
  assert (sound sys) as Hsound
    by (intros k bk Hbk; by rewrite Hempty, lookup_empty in Hbk).
  clear Hempty. unfold Api.serve.
  revert sys Hsound. induction rs as [|r rs IH]; intros sys Hsound; [done|].
  simpl. apply IH. by apply handle_sound.
Qed.

(** The server of the two traders, after the sell of user 1. *)
Lemma server_books_sound_witness :
  sound (Api.serve Examples.twoTraders [Api.PostOrder 1 10 Examples.sellOne]).
Proof.
  apply (server_books_sound [Api.PostOrder 1 10 Examples.sellOne]
           Examples.twoTraders).
  reflexivity.
Defined.

(** ** Symbols and letter case *)

Lemma upperChar_idempotent (c : ascii) :
  Strings.upperChar (Strings.upperChar c) = Strings.upperChar c.
Proof. by destruct c as [[] [] [] [] [] [] [] []]. Qed.

Lemma ToUpper_idempotent (s : string) :
  Strings.ToUpper (Strings.ToUpper s) = Strings.ToUpper s.
Proof.
  unfold Strings.ToUpper. induction s as [|c s IH]; [done|].
  simpl. by rewrite upperChar_idempotent, IH.
Qed.

Lemma GetDepth_empty (h : nat → Order) (sym : string) :
  GetDepth {| heap := h; book := NewOrderBook sym |}
  = {| DSymbol := sym; DBids := []; DAsks := [] |}.
Proof.
  unfold GetDepth, levelMap, mapKeys. simpl.
  by rewrite map_to_list_empty.
Qed.

(** X21: The depth route, for a symbol that is not empty: the book is looked up
    under the upper-cased symbol, so letter case does not matter; a book that
    exists is shown and nothing changes; for a symbol without a book the
    answer is the empty depth, and the manager keeps an empty book of that
    symbol from then on. *)
Theorem GetOrderBookDepth_spec (symbol : string) (sys : Handlers.System) :
  symbol ≠ "" →
  let key := Strings.ToUpper symbol in
  match Handlers.books sys !! key with
  | Some bk =>
    Handlers.GetOrderBookDepth symbol sys
    = (Handlers.DepthOK (GetDepth {| heap := Handlers.mem sys; book := bk |}), sys)
  | None =>
    Handlers.GetOrderBookDepth symbol sys
    = (Handlers.DepthOK {| DSymbol := key; DBids := []; DAsks := [] |},
       {| Handlers.db := Handlers.db sys; Handlers.mem := Handlers.mem sys;
          Handlers.nextPtr := Handlers.nextPtr sys;
          Handlers.books := <[key := NewOrderBook key]> (Handlers.books sys) |})
  end.
Proof.
  intros Hsym key. unfold Handlers.GetOrderBookDepth.
  rewrite bool_decide_eq_false_2 by done.
  unfold Manager.GetBookDepth, Manager.GetOrCreateBook.
  rewrite !ToUpper_idempotent. fold key.
  destruct (Handlers.books sys !! key) as [bk|]; simpl.
  - by destruct sys.
  - by rewrite GetDepth_empty.
Qed.

(** A server without books is asked for the book of btc-usd. *)
Lemma GetOrderBookDepth_spec_witness :
  Handlers.GetOrderBookDepth "btc-usd" Examples.twoTraders
  = (Handlers.DepthOK {| DSymbol := "BTC-USD"; DBids := []; DAsks := [] |},
     {| Handlers.db := Handlers.db Examples.twoTraders;
        Handlers.mem := Handlers.mem Examples.twoTraders;
        Handlers.nextPtr := Handlers.nextPtr Examples.twoTraders;
        Handlers.books := <["BTC-USD" := NewOrderBook "BTC-USD"]>
                            (Handlers.books Examples.twoTraders) |}).
Proof.
  refine (GetOrderBookDepth_spec "btc-usd" Examples.twoTraders _).
  done.
Defined.

(** X22: The manager keeps and names a book by the upper-cased symbol, and
    [AddOrder] compares the symbol of the order as it is: an order whose
    symbol has a lower-case letter is refused with the symbol-mismatch
    error, whatever else it says, and no order object, no existing book and
    no balance changes. *)
Theorem SubmitOrder_symbol_case (order : nat) (h : nat → Order)
    (bks : gmap string OrderBook) (tx : DB) :
  (∀ k bk, bks !! k = Some bk → symbol bk = k) →
  Symbol (h order) ≠ Strings.ToUpper (Symbol (h order)) →
  ∃ bks', Manager.SubmitOrder order h bks tx
          = (Some ErrSymbolMismatch, h, bks', tx)
    ∧ ∀ k bk, bks !! k = Some bk → bks' !! k = Some bk.
Proof.
  intros Hkeyed Hcase.
  unfold Manager.SubmitOrder, Manager.GetOrCreateBook.
  set (key := Strings.ToUpper (Symbol (h order))) in *.
  destruct (bks !! key) as [bk0|] eqn:Hbk.
  - unfold AddOrder. simpl.
    rewrite (Hkeyed _ _ Hbk).
    rewrite bool_decide_eq_true_2 by done. simpl.
    eexists. split; [done|].
    intros k bk Hk. destruct (decide (k = key)) as [->|Hne].
    + rewrite lookup_insert_eq. congruence.
    + by rewrite lookup_insert_ne.
  - unfold AddOrder. simpl.
    rewrite bool_decide_eq_true_2 by done. simpl.
    eexists. split; [done|].
    intros k bk Hk. destruct (decide (k = key)) as [->|Hne]; [congruence|].
    by rewrite !lookup_insert_ne.
Qed.

(** An order for btc-usd, handed to a manager that has the book BTC-USD. *)
Lemma SubmitOrder_symbol_case_witness :
  let o := {| ID := 1; UserID := 1; Symbol := "btc-usd"; Type_ := "limit";
              Side := "buy"; Price := 100; Quantity := 1; Status := "open" |} in
  let bks : gmap string OrderBook := {[ "BTC-USD" := NewOrderBook "BTC-USD" ]} in
  ∃ bks', Manager.SubmitOrder 0%nat (fun _ => o) bks Examples.sellerShort
          = (Some ErrSymbolMismatch, (fun _ => o), bks', Examples.sellerShort)
    ∧ ∀ k bk, bks !! k = Some bk → bks' !! k = Some bk.
Proof.
  intros o bks.
  refine (SubmitOrder_symbol_case 0%nat (fun _ => o) bks Examples.sellerShort _ _).
  - intros k bk Hk. by apply lookup_singleton_Some in Hk as [<- <-].
  - done.
Defined.

(** ** Orders that are created, and what the book and the read routes see *)






(** What a cancellation that is answered 200 has done to the order rows. *)
Lemma CancelOrder_row userID orderID sys sys1 :
  Handlers.CancelOrder userID orderID sys = (Handlers.StatusOK, sys1) →
  ∃ row, orders (Handlers.db sys) !! orderID = Some row
    ∧ UserID row = userID ∧ Status row = "open"
    ∧ orders (Handlers.db sys1)
      = <[orderID := set_Status row "cancelled"]> (orders (Handlers.db sys)).
Proof.
  intros Hrun. unfold Handlers.CancelOrder in Hrun.
  destruct (Database.CancelOrder _ _ _) as [[e|row] tx1] eqn:Hc.
  { by destruct e. }
  apply order_row_cancelled_once_aux in Hc as (Hrow & Huser & Hstatus & Hb & Ho).
  destruct (_ !! 0%nat) as [baseAsset|]; [|done].
  destruct (_ !! 1%nat) as [quoteAsset|]; [|done].
  destruct (Handlers.unlockFor _ _ _) as [[unlockAsset unlockAmount]|]; [|done].
  destruct (UnlockFunds _ _ _ _) as [[e|] tx2] eqn:Hun; [done|].
  destruct (Manager.CancelOrder _ _ _) as [[e h'] books'].
  simplify_eq. simpl. exists row. split_and!; try done.
  rewrite <- Ho.
  unfold UnlockFunds, updateBalance in Hun.
  repeat case_bool_decide; simpl in *;
    repeat (match goal with
            | H : context [match ?x with _ => _ end] |- _ =>
                destruct x eqn:?; simpl in *
            end; repeat case_bool_decide);
    by simplify_eq.
Qed.

(** X25: After a cancellation that is answered 200 the order is gone from the
    listing of its owner, and every listing is otherwise as it was; the order
    route still shows the row, now with the status cancelled, and a second
    cancellation of the order is answered 400 and changes nothing. *)
Theorem cancelled_order_leaves_listing userID orderID sys sys1 :
  Handlers.CancelOrder userID orderID sys = (Handlers.StatusOK, sys1) →
  ∃ row,
    Handlers.GetOrderByID userID orderID sys = Handlers.OrderOK row
    ∧ Handlers.GetOrders userID sys !! orderID = Some row
    ∧ Handlers.GetOrderByID userID orderID sys1
      = Handlers.OrderOK (set_Status row "cancelled")
    ∧ (∀ u, Handlers.GetOrders u sys1 = delete orderID (Handlers.GetOrders u sys))
    ∧ Handlers.CancelOrder userID orderID sys1
      = (Handlers.StatusBadRequest "order is not in a cancellable state", sys1).
Proof.
  intros Hrun.
  apply CancelOrder_row in Hrun as (row & Hrow & Huser & Hstatus & Ho).
  exists row.
  unfold Handlers.GetOrderByID, Handlers.GetOrders, GetOrderByID, GetUserOrders.
  rewrite Ho, Hrow. simpl. rewrite lookup_insert_eq. simpl.
  rewrite !bool_decide_eq_false_2 by (intros H; by apply H).
  split_and!; try done.
  - apply map_lookup_filter_Some. split; [done|]. simpl. split; [done|].
    by rewrite Hstatus.
  - intros u. rewrite map_filter_insert_False by (simpl; intros [_ H]; by apply H).
    apply map_filter_delete.
  - unfold Handlers.CancelOrder, Database.CancelOrder.
    rewrite Ho, lookup_insert_eq. simpl.
    by rewrite bool_decide_eq_false_2 by (intros H; by apply H).
Qed.

(** User 1 of the two traders offers one BTC and takes the offer back. *)
Lemma cancelled_order_leaves_listing_witness :
  let sys := (Handlers.CreateOrder 1 10 Examples.sellOne Examples.twoTraders).2 in
  let sys1 := (Handlers.CancelOrder 1 10 sys).2 in
  ∃ row,
    Handlers.GetOrderByID 1 10 sys = Handlers.OrderOK row
    ∧ Handlers.GetOrders 1 sys !! 10%N = Some row
    ∧ Handlers.GetOrderByID 1 10 sys1
      = Handlers.OrderOK (set_Status row "cancelled")
    ∧ (∀ u, Handlers.GetOrders u sys1 = delete 10%N (Handlers.GetOrders u sys))
    ∧ Handlers.CancelOrder 1 10 sys1
      = (Handlers.StatusBadRequest "order is not in a cancellable state", sys1).
Proof.
  intros sys sys1.
  refine (cancelled_order_leaves_listing 1 10 sys sys1 _).
  reflexivity.
Defined.

(** ** The book and the order rows *)









